(** * RDMA socket bridge: message ring and the socket-call overrides

    The development has three parts.

    - [MessageRing]: the single-connection message ring ([RDMAMessageBuffer]
      in the sources).  Its implementation is not among the source files, so
      the ring is modelled from the specification text.
    - [SocketOverrides]: the first version of the preloaded shim
      (the file including [socket-overrides.h]).
    - [Overrides]: the second version of the shim (the file including
      [overrides.h]), with the address selector, the fork generation gate and
      [poll].

    Integers are [Z]; descriptors are C [int]s; byte buffers are [list Z]. *)

From Stdlib Require Import ZArith Lia List Bool.
From stdpp Require Import base option list gmap strings.

Open Scope Z_scope.

(** ** The message ring, modelled from the specification *)

Module MessageRing.

(** Modelled from the spec: the ring framing constants; the implementation
    of [RDMAMessageBuffer] is missing from the sources.  "footer == length XOR
    0xDEADBEEF"; a message "logically occupies 12 + payload bytes of counter
    space". *)
Definition VALIDITY_MASK : Z := 0xDEADBEEF.

(** Modelled from the spec: the counter space a message takes beyond its
    payload ("advance readPos by 12 + length"). *)
Definition FRAME : Z := 12.

(** Modelled from the spec: the error taxonomy of section 7; the core's
    error type is missing from the sources. *)
Inductive ErrorKind :=
| HandshakeFailed | RdmaSetupFailed | PostSendFailed
| ConnectionLost | BufferTooSmall | ProtocolError.

(** Modelled from the spec: "a 4-byte little-endian length"; encoding and
    decoding of the header and footer words (the framing code is missing). *)
Definition le32 (v : Z) : list Z :=
  [ Z.land v 255;
    Z.land (Z.shiftr v 8) 255;
    Z.land (Z.shiftr v 16) 255;
    Z.land (Z.shiftr v 24) 255 ].

(** Modelled from the spec: reading a 4-byte little-endian word back (the
    framing code is missing). *)
Definition of_le32 (b0 b1 b2 b3 : Z) : Z :=
  Z.lor b0 (Z.lor (Z.shiftl b1 8) (Z.lor (Z.shiftl b2 16) (Z.shiftl b3 24))).

(** Modelled from the spec: one direction of a connection, i.e. the
    receiver's ring memory with the producer's and the consumer's cursors
    (section 3, RingBuffer and ReadPositionSlot; the class is missing from
    the sources).  [peerReadPos] is the sender's cached copy of the
    receiver's read cursor, [lastPublished] the value the receiver pushed
    last. *)
Record Ring := mkRing {
  bufferSize : Z;
  mem : list Z;
  writePos : Z;
  peerReadPos : Z;
  readPos : Z;
  lastPublished : Z
}.

(** Modelled from the spec: "Cursors: zero at construction", ring memory
    zeroed (I2); construction of the ring is missing from the sources. *)
Definition fresh (n : Z) : Ring :=
  mkRing n (replicate (Z.to_nat n) 0) 0 0 0 0.

(** Modelled from the spec: "physical offset is cursor & (N-1)". *)
Definition phys (n cursor : Z) : Z := Z.land cursor (n - 1).

(** Modelled from the spec: access to the ring memory at a cursor, one byte
    or a run of bytes, each at its physical offset (the ring class is
    missing from the sources). *)
Definition rd (n : Z) (m : list Z) (cursor : Z) : Z :=
  default 0 (m !! Z.to_nat (phys n cursor)).

(** Modelled from the spec: one byte stored at the physical offset of a
    cursor. *)
Definition wr (n : Z) (m : list Z) (cursor v : Z) : list Z :=
  <[Z.to_nat (phys n cursor) := v]> m.

(** Modelled from the spec: a run of bytes stored from a cursor on (what one
    RDMA write, or the zeroing of a consumed message, does to the ring). *)
Fixpoint wr_bytes (n : Z) (m : list Z) (cursor : Z) (bs : list Z) : list Z :=
  match bs with
  | [] => m
  | b :: bs' => wr_bytes n (wr n m cursor b) (cursor + 1) bs'
  end.

(** Modelled from the spec: the copy of [len] payload bytes out of the
    ring. *)
Definition rd_bytes (n : Z) (m : list Z) (cursor : Z) (len : nat) : list Z :=
  map (fun i => rd n m (cursor + Z.of_nat i)) (seq 0 len).

(** Modelled from the spec: "read the 4-byte length header", "read the
    4-byte footer". *)
Definition rd32 (n : Z) (m : list Z) (cursor : Z) : Z :=
  of_le32 (rd n m cursor) (rd n m (cursor + 1))
          (rd n m (cursor + 2)) (rd n m (cursor + 3)).

(** Modelled from the spec: the frame of a message, "a 4-byte little-endian
    length; length payload bytes; a 4-byte little-endian validity footer
    equal to length XOR VALIDITY_MASK". *)
Definition frame (b : list Z) : list Z :=
  let len := Z.of_nat (length b) in
  le32 len ++ b ++ le32 (Z.lxor len VALIDITY_MASK).

(** Modelled from the spec: [send] returns once the payload is serialised,
    or blocks. *)
Inductive send_outcome := Sent | SendBlocks.

(** Modelled from the spec: section 4.2 (SendPath), whose code is missing
    from the sources.

    - Placement: "A message that would straddle the wrap point is written in
      two physical segments but logically occupies 12 + payload bytes of
      counter space" (section 3); every byte of the frame goes to the
      physical offset of its own cursor, which is also where the receiver
      looks for it ("compute the footer offset as (readPos + 4 + length)
      mod N", section 4.3).
    - Free space: "N - (writePos - peerReadPos)"; when insufficient the
      sender "refreshes peerReadPos by posting a one-sided RDMA read of the
      peer's read-position slot" (which holds the peer's current [readPos])
      "and then retries"; a further shortage makes the sender spin, which
      in this sequential model never ends: [SendBlocks].

    Section 4.2 also words a wrap policy under which the tail of the ring
    is left as padding; it is a different sender, [send_padded] below.  The
    writeup among the sources knows power-of-two sizes "for buffer
    wraparounds" and a footer "at position start + sizeof(messageSize) +
    messageSize", and no padding. *)
Definition send (b : list Z) (r : Ring) : Ring * send_outcome :=
  let n := bufferSize r in
  let len := Z.of_nat (length b) in
  let need := FRAME + len in
  let free p := n - (writePos r - p) in
  let cached :=
    if free (peerReadPos r) <? need then readPos r else peerReadPos r in
  let r1 := mkRing n (mem r) (writePos r) cached (readPos r) (lastPublished r) in
  if free cached <? need then (r1, SendBlocks)
  else
    (mkRing n (wr_bytes n (mem r) (writePos r) (frame b)) (writePos r + need)
            cached (readPos r) (lastPublished r), Sent).

(** Modelled from the spec: the sender under the wrap policy of section
    4.2, which is at odds with the sentence of section 3 used for [send]:
    "If (writePos mod N) + 12 + length > N, the sender treats the tail
    segment as padding: it still requires those bytes of counter space but
    writes the actual message starting at the next wrap boundary"; "the
    total size consumed by a message is 12 + length, plus any padding".  The
    sources do not say which of the two the ring does; the shim is modelled
    over [send]. *)
Definition send_padded (b : list Z) (r : Ring) : Ring * send_outcome :=
  let n := bufferSize r in
  let len := Z.of_nat (length b) in
  let off := phys n (writePos r) in
  let pad := if n <? off + FRAME + len then n - off else 0 in
  let need := pad + FRAME + len in
  let free p := n - (writePos r - p) in
  let cached :=
    if free (peerReadPos r) <? need then readPos r else peerReadPos r in
  let r1 := mkRing n (mem r) (writePos r) cached (readPos r) (lastPublished r) in
  if free cached <? need then (r1, SendBlocks)
  else
    let start := writePos r + pad in
    (mkRing n (wr_bytes n (mem r) start (frame b)) (writePos r + need)
            cached (readPos r) (lastPublished r), Sent).

(** Modelled from the spec: what the detection algorithm of section 4.3
    finds: no data, an impossible length, or a message at a cursor. *)
Inductive detection :=
| NoData
| Corrupt
| Message (start : Z) (len : Z).

(** Modelled from the spec: the detection algorithm of section 4.3 at one
    cursor position.  Step 1: "Read the 4-byte length header at offset
    readPos mod N.  If zero, check for the wrap-padding case" -- "the
    receiver detects this condition when the 4-byte length header is zero
    and readPos mod N + 12 > N; it then advances readPos to the next wrap
    boundary and retries" -- "or return no data".  [inl c] asks for a retry
    at cursor [c]. *)
Definition detect_at (r : Ring) (pos : Z) : Z + detection :=
  let n := bufferSize r in
  let off := phys n pos in
  let len := rd32 n (mem r) pos in
  if len =? 0 then
    if n <? off + FRAME then inl (pos + (n - off)) else inr NoData
  else if n - FRAME <? len then inr Corrupt
  else
    let footer := rd32 n (mem r) (pos + 4 + len) in
    if footer =? Z.lxor len VALIDITY_MASK then inr (Message pos len)
    else inr NoData.

(** Modelled from the spec: the detection algorithm with its retry.  The
    retry after a skip starts at a wrap boundary; a second skip request can
    only arise for a ring shorter than one frame overhead, where the
    receiver would skip for ever: no data is ever found. *)
Definition detect (r : Ring) : detection :=
  match detect_at r (readPos r) with
  | inr d => d
  | inl pos =>
      match detect_at r pos with
      | inr d => d
      | inl _ => NoData
      end
  end.

(** Modelled from the spec: "hasData() returns true iff a complete message
    is currently visible at readPos". *)
Definition hasData (r : Ring) : bool :=
  match detect r with Message _ _ => true | _ => false end.

(** Modelled from the spec: [receive] returns the payload, blocks, or fails
    with an error of section 7. *)
Inductive recv_outcome :=
| Received (payload : list Z)
| RecvBlocks
| RecvFails (e : ErrorKind).

(** Modelled from the spec: section 4.3 (ReceivePath), whose code is missing
    from the sources.  "receive(dst, cap) blocks until exactly one message
    is available"; a capacity below the message length is [BufferTooSmall],
    "the message remains unread" and the "ring state [is] unchanged";
    otherwise "copy payload out to the caller, zero the header, payload, and
    footer bytes in place, advance readPos by 12 + length (plus any wrap
    padding consumed)", and publish the cursor "whenever the delta since the
    last publish exceeds N/2". *)
Definition receive (cap : Z) (r : Ring) : Ring * recv_outcome :=
  let n := bufferSize r in
  match detect r with
  | NoData => (r, RecvBlocks)
  | Corrupt => (r, RecvFails ProtocolError)
  | Message start len =>
      if cap <? len then (r, RecvFails BufferTooSmall)
      else
        let payload := rd_bytes n (mem r) (start + 4) (Z.to_nat len) in
        let m' := wr_bytes n (mem r) start
                    (replicate (Z.to_nat (len + 8)) 0) in
        let rp := start + FRAME + len in
        let publish := n / 2 <? rp - lastPublished r in
        (mkRing n m' (writePos r)
                (if publish then rp else peerReadPos r)
                rp
                (if publish then rp else lastPublished r),
         Received payload)
  end.



(** Modelled from the spec: the two directions of one connection as seen
    from one endpoint ("the two halves of a bidirectional connection are
    independent rings"): [tx] is the peer's ring this endpoint writes,
    [rx] the local ring it reads.  The class [RDMAMessageBuffer] itself is
    missing from the sources. *)
Record RDMAMessageBuffer := mkBuffer { tx : Ring; rx : Ring }.

(** Modelled from the spec: "Construct MessageRing(bufferSize, tcpFd)";
    a successful handshake leaves two empty rings. *)
Definition connected (n : Z) : RDMAMessageBuffer :=
  mkBuffer (fresh n) (fresh n).

(** Modelled from the spec: [send], [receive] and [hasData] of the facade
    (section 4.4) act on the ring of their direction. *)
Definition buffer_send (b : list Z) (mb : RDMAMessageBuffer)
  : RDMAMessageBuffer * send_outcome :=
  let '(r, o) := send b (tx mb) in (mkBuffer r (rx mb), o).

(** Modelled from the spec: [receive(ptr, cap)] of the facade. *)
Definition buffer_receive (cap : Z) (mb : RDMAMessageBuffer)
  : RDMAMessageBuffer * recv_outcome :=
  let '(r, o) := receive cap (rx mb) in (mkBuffer (tx mb) r, o).

(** Modelled from the spec: the argument-less [receive()] of the first shim
    version returns the whole next message as a vector; it is the
    specification's [receive] with a capacity no message can exceed (the
    ring size).  The method is missing from the sources. *)
Definition buffer_receive_all (mb : RDMAMessageBuffer)
  : RDMAMessageBuffer * recv_outcome :=
  buffer_receive (bufferSize (rx mb)) mb.

(** Modelled from the spec: [hasData()] of the facade. *)
Definition buffer_hasData (mb : RDMAMessageBuffer) : bool := hasData (rx mb).

End MessageRing.

(** ** The environment of the shim *)

Module Posix.

(** [ERROR] and [SUCCESS] as the first shim version defines them
    ([#define ERROR -1], [#define SUCCESS 0]); the second version takes them
    from [overrides.h], which is not among the sources, and compares the
    result of [real::connect] with [ERROR] in the same way. *)
Definition ERROR : Z := -1.
Definition SUCCESS : Z := 0.

(** Constants of the system headers (Linux values). *)
Definition SOCK_STREAM : Z := 1.
Definition AF_INET : Z := 2.
Definition POLLIN : Z := 1.
Definition POLLOUT : Z := 4.
Definition POLLERR : Z := 8.
Definition MSG_NOSIGNAL : Z := 0x4000.
Definition EINPROGRESS : Z := 115.

(** [struct pollfd]. *)
Record pollfd := mkPollfd { fd : Z; events : Z; revents : Z }.

Definition set_revents (v : Z) (p : pollfd) : pollfd :=
  mkPollfd (fd p) (events p) v.

(** What a C++ call can do besides returning: an exception leaves the
    function, or the call never returns.  [invalid_argument] stands for
    either exception of [std::stoul] ([std::invalid_argument] and
    [std::out_of_range]). *)
Inductive exn :=
| core_error (e : MessageRing.ErrorKind)
| invalid_argument.

Inductive result :=
| Returns (v : Z)
| Throws (x : exn)
| Blocks.

(** A [size_t] returned through [ssize_t]. *)
Definition to_ssize (n : Z) : Z :=
  if n mod 2 ^ 64 <? 2 ^ 63 then n mod 2 ^ 64 else n mod 2 ^ 64 - 2 ^ 64.

(** What the operating system and the peer answer during one call of the
    shim: the results of the [real::] functions and of the libc calls the
    shim makes, the outcome of the handshake inside the constructor of
    [RDMAMessageBuffer] ([None]: it succeeds), and for [poll] the clock and
    the peer's remote writes observed at each pass of its loop. *)
Record Sys := mkSys {
  real_accept : Z -> Z;
  real_connect : Z -> Z * Z;               (* result, errno *)
  real_getsockopt : Z -> Z * Z;            (* result, SO_TYPE written *)
  real_getsockname : Z -> Z * Z;           (* result, ss_family written *)
  getsockname : Z -> Z * Z;                (* result, ss_family written *)
  getpeername : Z -> Z * Z * Z;            (* result, ss_family, s_addr *)
  real_write : Z -> list Z -> Z;
  real_read : Z -> Z -> Z * list Z;        (* result, bytes stored *)
  real_send : Z -> list Z -> Z -> Z;
  real_recv : Z -> Z -> Z -> Z * list Z;
  real_close : Z -> Z;
  real_fork : Z;
  real_poll : list pollfd -> Z -> Z * (nat -> Z);  (* result, revents stored *)
  handshake : Z -> Z -> option MessageRing.ErrorKind;
  elapsed_ns : nat -> Z;
  remote : nat -> Z -> MessageRing.RDMAMessageBuffer
           -> MessageRing.RDMAMessageBuffer
}.

(** [std::make_unique<RDMAMessageBuffer>(size, fd)]: the constructor throws
    when the handshake fails. *)
Definition make_unique (sys : Sys) (size sock : Z)
  : exn + MessageRing.RDMAMessageBuffer :=
  match handshake sys size sock with
  | Some e => inl (core_error e)
  | None => inr (MessageRing.connected size)
  end.

(** Further constants of the system headers (Linux values). *)
Definition POLLHUP : Z := 16.
Definition F_GETFD : Z := 1.
Definition F_SETFD : Z := 2.
Definition F_GETFL : Z := 3.
Definition F_SETFL : Z := 4.
Definition O_NONBLOCK : Z := 2048.

(** [struct msghdr], as far as the overrides look at it: the address
    ([None] for a null [msg_name]), its length, and the array of buffers
    ([msg_iovlen] is its length; a buffer is given by the bytes it holds,
    [iov_len] being their number). *)
Record msghdr := mkMsghdr {
  msg_name : option (list Z);
  msg_namelen : Z;
  msg_iov : list (list Z)
}.

(** [struct timeval]. *)
Record timeval := mkTimeval { tv_sec : Z; tv_usec : Z }.

(** The three [fd_set] pointers of [select] ([DescriptorSets] in the
    source); [None] is a null pointer. *)
Record DescriptorSets := mkSets {
  readfds : option (gset Z);
  writefds : option (gset Z);
  errorfds : option (gset Z)
}.

(** [FD_ZERO] on each set that is given. *)
Definition zero_sets (sets : DescriptorSets) : DescriptorSets :=
  mkSets ((fun _ => ∅) <$> readfds sets)
         ((fun _ => ∅) <$> writefds sets)
         ((fun _ => ∅) <$> errorfds sets).

(** A [long] converted to [int]. *)
Definition to_int (n : Z) : Z :=
  if n mod 2 ^ 32 <? 2 ^ 31 then n mod 2 ^ 32 else n mod 2 ^ 32 - 2 ^ 32.

(** The answers of the real calls that the remaining overrides forward to. *)
Record Forwarded := mkForwarded {
  real_sendto : Z -> list Z -> Z -> list Z -> Z;
  real_recvfrom : Z -> Z -> Z -> Z * list Z;          (* result, bytes stored *)
  real_sendmsg : Z -> msghdr -> Z -> Z;
  real_recvmsg : Z -> msghdr -> Z -> Z * list (list Z);
  real_fcntl_set_flags : Z -> Z -> Z -> Z;
  real_fcntl_get_flags : Z -> Z -> Z;
  real_getsockopt_value : Z -> Z -> Z -> Z * list Z;  (* result, value stored *)
  real_setsockopt : Z -> Z -> Z -> list Z -> Z;
  real_select : Z -> DescriptorSets -> option timeval -> Z * DescriptorSets
}.

(** A flag that [send] and [recv] do not ignore (Linux value). *)
Definition MSG_DONTWAIT : Z := 0x40.

(** [getsockopt] as POSIX specifies it: "Upon successful completion,
    getsockopt() shall return 0; otherwise, -1 shall be returned". *)
Definition getsockopt_conforms (sys : Sys) : Prop :=
  forall s, fst (real_getsockopt sys s) = 0 \/ fst (real_getsockopt sys s) = -1.

End Posix.

(** ** The first version of the shim *)

Module SocketOverrides.
Import MessageRing Posix.

(** [std::unordered_map<int, std::unique_ptr<RDMAMessageBuffer>> bridge]
    is the whole state.  In [bridge[s] = std::make_unique<...>(...)] the
    right operand is evaluated first (the C++17 order), so that a throwing
    constructor leaves the map as it was. *)

Definition accept (sys : Sys) (bridge : gmap Z RDMAMessageBuffer)
    (server_socket : Z) : gmap Z RDMAMessageBuffer * Z :=
  let client_socket := real_accept sys server_socket in
  if client_socket <? 0 then (bridge, ERROR)
  else
    (* socketType receives the return value of real::getsockopt *)
    let socketType := fst (real_getsockopt sys server_socket) in
    if socketType <? 0 then (bridge, ERROR)
    else
      let '(rc, ss_family) := real_getsockname sys server_socket in
      if rc <? 0 then (bridge, ERROR)
      else
        let addressLocation := ss_family in
        if negb ((socketType =? SOCK_STREAM) && (addressLocation =? AF_INET))
        then (bridge, SUCCESS)
        else
          match make_unique sys (4 * 1024) client_socket with
          | inr mb => (<[client_socket := mb]> bridge, SUCCESS)
          | inl _ => (bridge, ERROR)
          end.

Definition connect (sys : Sys) (bridge : gmap Z RDMAMessageBuffer)
    (sock : Z) : gmap Z RDMAMessageBuffer * Z :=
  if fst (real_connect sys sock) =? ERROR then (bridge, ERROR)
  else
    let socketType := fst (real_getsockopt sys sock) in
    if socketType <? 0 then (bridge, ERROR)
    else
      let '(rc, ss_family, _) := getpeername sys sock in
      if rc <? 0 then (bridge, ERROR)
      else
        let addressLocation := ss_family in
        if negb ((socketType =? SOCK_STREAM) && (addressLocation =? AF_INET))
        then (bridge, SUCCESS)
        else
          match make_unique sys (4 * 1024) sock with
          | inr mb => (<[sock := mb]> bridge, SUCCESS)
          | inl _ => (bridge, ERROR)
          end.

Definition write (sys : Sys) (bridge : gmap Z RDMAMessageBuffer)
    (sock : Z) (source : list Z) : gmap Z RDMAMessageBuffer * result :=
  match bridge !! sock with
  | Some mb =>
      match buffer_send source mb with
      | (mb', Sent) => (<[sock := mb']> bridge, Returns SUCCESS)
      | (mb', SendBlocks) => (<[sock := mb']> bridge, Blocks)
      end
  | None => (bridge, Returns (real_write sys sock source))
  end.

(** The last component is what was stored at [destination]. *)
Definition read (sys : Sys) (bridge : gmap Z RDMAMessageBuffer)
    (sock : Z) (requested_bytes : Z)
  : gmap Z RDMAMessageBuffer * result * list Z :=
  match bridge !! sock with
  | Some mb =>
      match buffer_receive_all mb with
      | (mb', Received res) =>
          if requested_bytes <? Z.of_nat (length res)
          then (<[sock := mb']> bridge, Returns ERROR, [])
          else (<[sock := mb']> bridge,
                Returns (to_ssize (Z.of_nat (length res))), res)
      | (mb', RecvBlocks) => (<[sock := mb']> bridge, Blocks, [])
      | (mb', RecvFails e) => (<[sock := mb']> bridge, Throws (core_error e), [])
      end
  | None =>
      let '(n, bytes) := real_read sys sock requested_bytes in
      (bridge, Returns n, bytes)
  end.

Definition close (sys : Sys) (bridge : gmap Z RDMAMessageBuffer)
    (sock : Z) : gmap Z RDMAMessageBuffer * Z :=
  (delete sock bridge, real_close sys sock).

Definition send (sys : Sys) (bridge : gmap Z RDMAMessageBuffer)
    (sock : Z) (buffer : list Z) (flags : Z)
  : gmap Z RDMAMessageBuffer * result :=
  if (flags =? 0) || (flags =? MSG_NOSIGNAL) then write sys bridge sock buffer
  else (bridge, Returns (real_send sys sock buffer flags)).

Definition recv (sys : Sys) (bridge : gmap Z RDMAMessageBuffer)
    (sock : Z) (length : Z) (flags : Z)
  : gmap Z RDMAMessageBuffer * result * list Z :=
  if (flags =? 0) || (flags =? MSG_NOSIGNAL) then read sys bridge sock length
  else
    let '(n, bytes) := real_recv sys sock length flags in
    (bridge, Returns n, bytes).

(** When the address is null this should be a stream socket. *)
Definition sendto (sys : Sys) (fw : Forwarded)
    (bridge : gmap Z RDMAMessageBuffer) (sock : Z) (buffer : list Z)
    (flags : Z) (dest_addr : option (list Z))
  : gmap Z RDMAMessageBuffer * result :=
  match dest_addr with
  | None => send sys bridge sock buffer flags
  | Some addr => (bridge, Returns (real_sendto fw sock buffer flags addr))
  end.

Definition recvfrom (sys : Sys) (fw : Forwarded)
    (bridge : gmap Z RDMAMessageBuffer) (sock : Z) (length : Z)
    (flags : Z) (src_addr : option (list Z))
  : gmap Z RDMAMessageBuffer * result * list Z :=
  match src_addr with
  | None => recv sys bridge sock length flags
  | Some _ =>
      let '(n, bytes) := real_recvfrom fw sock length flags in
      (bridge, Returns n, bytes)
  end.

(** Only a single buffer is supported; anything else goes to the socket. *)
Definition sendmsg (sys : Sys) (fw : Forwarded)
    (bridge : gmap Z RDMAMessageBuffer) (sock : Z) (msg : msghdr) (flags : Z)
  : gmap Z RDMAMessageBuffer * result :=
  match msg_iov msg with
  | [iov_base] => sendto sys fw bridge sock iov_base flags (msg_name msg)
  | _ => (bridge, Returns (real_sendmsg fw sock msg flags))
  end.

(** The last component is what was stored in each buffer. *)
Definition recvmsg (sys : Sys) (fw : Forwarded)
    (bridge : gmap Z RDMAMessageBuffer) (sock : Z) (msg : msghdr) (flags : Z)
  : gmap Z RDMAMessageBuffer * result * list (list Z) :=
  match msg_iov msg with
  | [iov_base] =>
      let '(b, r, bytes) :=
        recvfrom sys fw bridge sock (Z.of_nat (List.length iov_base)) flags
                 (msg_name msg) in
      (b, r, [bytes])
  | _ =>
      let '(n, stored) := real_recvmsg fw sock msg flags in
      (bridge, Returns n, stored)
  end.

(** *** Sequences of calls *)

Inductive call :=
| call_accept (server_socket : Z)
| call_connect (sock : Z)
| call_write (sock : Z) (source : list Z)
| call_read (sock : Z) (requested_bytes : Z)
| call_send (sock : Z) (buffer : list Z) (flags : Z)
| call_recv (sock : Z) (length : Z) (flags : Z)
| call_close (sock : Z).

(** The map of rings after one call. *)
Definition after (sys : Sys) (c : call) (bridge : gmap Z RDMAMessageBuffer)
  : gmap Z RDMAMessageBuffer :=
  match c with
  | call_accept s => fst (accept sys bridge s)
  | call_connect s => fst (connect sys bridge s)
  | call_write s source => fst (write sys bridge s source)
  | call_read s n => fst (fst (read sys bridge s n))
  | call_send s buffer flags => fst (send sys bridge s buffer flags)
  | call_recv s n flags => fst (fst (recv sys bridge s n flags))
  | call_close s => fst (close sys bridge s)
  end.

(** The maps a process can have, when every answer of the operating system
    satisfies [ok]. *)
Inductive reachable (ok : Sys -> Prop) : gmap Z RDMAMessageBuffer -> Prop :=
| reachable_initial : reachable ok ∅
| reachable_after sys c bridge :
    reachable ok bridge -> ok sys -> reachable ok (after sys c bridge).

End SocketOverrides.

(** ** The second version of the shim *)

Module Overrides.
Import MessageRing Posix.

(** The globals of the anonymous namespace. *)
Record State := mkState {
  bridge : gmap Z RDMAMessageBuffer;
  rdmableSockets : gset Z;
  dontCloseRDMA : bool;
  forkGeneration : Z
}.

Definition initial : State := mkState ∅ ∅ true 0.

Definition BUFFER_SIZE : Z := 128 * 1024.

(** The process environment, read once ([static const]): the two variables,
    and the libc conversions applied to them.  [inet_pton] answers [None]
    for a string that is no dotted IPv4 address (and then stores nothing);
    [stoul] answers [None] where [std::stoul] throws. *)
Record Config := mkConfig {
  USE_RDMA : option string;
  RDMA_FORKGEN : option string;
  inet_pton : string -> option Z;
  stoul : string -> option Z
}.

Definition getRdmaEnv (cfg : Config) : option string := USE_RDMA cfg.

Definition getForkGenIntercept (cfg : Config) : option Z :=
  match RDMA_FORKGEN cfg with
  | Some forkGenChars => stoul cfg forkGenChars
  | None => Some 0
  end.

Definition isTcpSocket (sys : Sys) (socket : Z) (isServer : bool) : bool :=
  let '(rc, option) := real_getsockopt sys socket in
  if rc <? 0 then false
  else
    let socketType := option in
    let '(rc', ss_family) :=
      if isServer then getsockname sys socket
      else (fst (fst (getpeername sys socket)),
            snd (fst (getpeername sys socket))) in
    if rc' <? 0 then false
    else
      let addressLocation := ss_family in
      (socketType =? SOCK_STREAM) && (addressLocation =? AF_INET).

(** The [s_addr] of the returned [sockaddr_in]: zero-initialised, and
    overwritten only by a successful [inet_pton]. *)
Definition getRDMAReachable (cfg : Config) : Z :=
  match getRdmaEnv cfg with
  | None => 0
  | Some text => default 0 (inet_pton cfg text)
  end.

(** The result of the inner [getpeername] is not looked at; the address
    compared is whatever the call left in [connectedAddr]. *)
Definition connectedAddr (sys : Sys) (socket : Z) : Z :=
  snd (getpeername sys socket).

Definition shouldServerIntercept (cfg : Config) (sys : Sys)
    (serverSocket clientSocket : Z) : bool :=
  if negb (isTcpSocket sys serverSocket true) then false
  else connectedAddr sys clientSocket =? getRDMAReachable cfg.

Definition shouldClientIntercept (cfg : Config) (sys : Sys) (socket : Z)
  : bool :=
  if negb (isTcpSocket sys socket false) then false
  else connectedAddr sys socket =? getRDMAReachable cfg.

Definition with_bridge (st : State) (b : gmap Z RDMAMessageBuffer) : State :=
  mkState b (rdmableSockets st) (dontCloseRDMA st) (forkGeneration st).

Definition with_rdmable (st : State) (s : gset Z) : State :=
  mkState (bridge st) s (dontCloseRDMA st) (forkGeneration st).

Definition accept (cfg : Config) (sys : Sys) (st : State)
    (server_socket : Z) : State * Z :=
  let client_socket := real_accept sys server_socket in
  if client_socket <? 0 then (st, ERROR)
  else if negb (shouldServerIntercept cfg sys server_socket client_socket)
  then (st, SUCCESS)
  else (with_rdmable st ({[client_socket]} ∪ rdmableSockets st),
        client_socket).

Definition connect (cfg : Config) (sys : Sys) (st : State) (sock : Z)
  : State * Z :=
  let '(rc, errno) := real_connect sys sock in
  let failed :=
    if rc =? ERROR then
      if negb (errno =? EINPROGRESS) then true
      else
        (* a non-blocking socket: poll until it is ready *)
        let '(_, stored) := real_poll sys [mkPollfd sock POLLOUT 0] (-1) in
        negb (Z.land (stored 0%nat) POLLERR =? 0)
    else false in
  if failed then (st, ERROR)
  else if negb (shouldClientIntercept cfg sys sock) then (st, SUCCESS)
  else (with_rdmable st ({[sock]} ∪ rdmableSockets st), SUCCESS).

(** [write] calls itself once after it has built the ring; [depth] bounds
    the nesting of calls (see [write]). *)
Fixpoint write_rec (depth : nat) (cfg : Config) (sys : Sys) (st : State)
    (sock : Z) (source : list Z) : State * result :=
  match bridge st !! sock with
  | Some mb =>
      match buffer_send source mb with
      | (mb', Sent) =>
          (with_bridge st (<[sock := mb']> (bridge st)),
           Returns (to_ssize (Z.of_nat (length source))))
      | (mb', SendBlocks) =>
          (with_bridge st (<[sock := mb']> (bridge st)), Blocks)
      end
  | None =>
      match getForkGenIntercept cfg with
      | None => (st, Throws invalid_argument)
      | Some forkGen =>
          if (forkGeneration st =? forkGen)
             && bool_decide (sock ∈ rdmableSockets st)
          then
            let st1 := with_rdmable st (rdmableSockets st ∖ {[sock]}) in
            match make_unique sys BUFFER_SIZE sock with
            | inl x => (st1, Throws x)
            | inr mb =>
                let st2 := with_bridge st1 (<[sock := mb]> (bridge st1)) in
                match depth with
                | O => (st2, Blocks)
                | S depth' => write_rec depth' cfg sys st2 sock source
                end
            end
          else (st, Returns (real_write sys sock source))
      end
  end.

Definition write := write_rec 1.

Fixpoint read_rec (depth : nat) (cfg : Config) (sys : Sys) (st : State)
    (sock : Z) (requested_bytes : Z) : State * result * list Z :=
  match bridge st !! sock with
  | Some mb =>
      match buffer_receive requested_bytes mb with
      | (mb', Received bytes) =>
          (with_bridge st (<[sock := mb']> (bridge st)),
           Returns (to_ssize (Z.of_nat (length bytes))), bytes)
      | (mb', RecvBlocks) =>
          (with_bridge st (<[sock := mb']> (bridge st)), Blocks, [])
      | (mb', RecvFails e) =>
          (with_bridge st (<[sock := mb']> (bridge st)),
           Throws (core_error e), [])
      end
  | None =>
      match getForkGenIntercept cfg with
      | None => (st, Throws invalid_argument, [])
      | Some forkGen =>
          if (forkGeneration st =? forkGen)
             && bool_decide (sock ∈ rdmableSockets st)
          then
            let st1 := with_rdmable st (rdmableSockets st ∖ {[sock]}) in
            match make_unique sys BUFFER_SIZE sock with
            | inl x => (st1, Throws x, [])
            | inr mb =>
                let st2 := with_bridge st1 (<[sock := mb]> (bridge st1)) in
                match depth with
                | O => (st2, Blocks, [])
                | S depth' => read_rec depth' cfg sys st2 sock requested_bytes
                end
            end
          else
            let '(n, bytes) := real_read sys sock requested_bytes in
            (st, Returns n, bytes)
      end
  end.

Definition read := read_rec 1.

Definition close (sys : Sys) (st : State) (sock : Z) : State * Z :=
  let st' :=
    if negb (dontCloseRDMA st) then with_bridge st (delete sock (bridge st))
    else st in
  (st', real_close sys sock).

Definition send (cfg : Config) (sys : Sys) (st : State)
    (sock : Z) (buffer : list Z) (flags : Z) : State * result :=
  if (flags =? 0) || (flags =? MSG_NOSIGNAL) then write cfg sys st sock buffer
  else (st, Returns (real_send sys sock buffer flags)).

Definition recv (cfg : Config) (sys : Sys) (st : State)
    (sock : Z) (length : Z) (flags : Z) : State * result * list Z :=
  if (flags =? 0) || (flags =? MSG_NOSIGNAL) then read cfg sys st sock length
  else
    let '(n, bytes) := real_recv sys sock length flags in
    (st, Returns n, bytes).

(** [++forkGeneration] on a [size_t]. *)
Definition fork (sys : Sys) (st : State) : State * Z :=
  let res := real_fork sys in
  let gen :=
    if res =? 0 then (forkGeneration st + 1) mod 2 ^ 64
    else forkGeneration st in
  (mkState (bridge st) (rdmableSockets st) true gen, res).

(** *** [poll] *)

(** The indices pushed to [rdma_fds] and to [normal_fds], in order. *)
Fixpoint classify (b : gmap Z RDMAMessageBuffer) (index : nat)
    (fds : list pollfd) : list nat * list nat :=
  match fds with
  | [] => ([], [])
  | p :: rest =>
      let '(rdma_fds, normal_fds) := classify b (S index) rest in
      match b !! fd p with
      | Some _ => (index :: rdma_fds, normal_fds)
      | None => (rdma_fds, index :: normal_fds)
      end
  end.

(** The body of the inner [for] loop for one entry; [has] is the answer of
    [msgBuf->hasData()]. *)
Definition visit (has : bool) (p : pollfd) (event_count : Z) : pollfd * Z :=
  let '(p1, c1) :=
    if has then
      let inFlag := Z.land (events p) POLLIN in
      (set_revents (Z.lor (revents p) inFlag) p,
       if inFlag =? 0 then event_count else event_count + 1)
    else (p, event_count) in
  let outFlag := Z.land (events p1) POLLOUT in
  (set_revents (Z.lor (revents p1) outFlag) p1,
   if outFlag =? 0 then c1 else c1 + 1).

(** One full loop over [rdma_fds].  At pass number [pass] the ring of a
    descriptor is seen as the peer's remote writes have left it.  An index
    outside the array or a descriptor without ring cannot be in [rdma_fds];
    such an entry is skipped. *)
Fixpoint full_loop (sys : Sys) (b : gmap Z RDMAMessageBuffer) (pass : nat)
    (rdma_fds : list nat) (fds : list pollfd) (event_count : Z)
  : list pollfd * Z :=
  match rdma_fds with
  | [] => (fds, event_count)
  | i :: rest =>
      match fds !! i with
      | Some p =>
          match b !! fd p with
          | Some msgBuf =>
              let has := buffer_hasData (remote sys pass (fd p) msgBuf) in
              let '(p', c') := visit has p event_count in
              full_loop sys b pass rest (<[i := p']> fds) c'
          | None => full_loop sys b pass rest fds event_count
          end
      | None => full_loop sys b pass rest fds event_count
      end
  end.

(** The [do ... while] loop: it is left with events, or as soon as the time
    elapsed (a [double] of milliseconds in the source, nanoseconds here) is
    not above [timeout].  [fuel] bounds the number of passes; [None] means
    the loop is still running after [fuel] passes. *)
Fixpoint rdma_loop (fuel : nat) (sys : Sys) (b : gmap Z RDMAMessageBuffer)
    (timeout : Z) (pass : nat) (rdma_fds : list nat) (fds : list pollfd)
    (event_count : Z) : option (list pollfd * Z) :=
  match fuel with
  | O => None
  | S fuel' =>
      let '(fds', c') := full_loop sys b pass rdma_fds fds event_count in
      if 0 <? c' then Some (fds', c')
      else if timeout * 1000000 <? elapsed_ns sys pass
      then rdma_loop fuel' sys b timeout (S pass) rdma_fds fds' c'
      else Some (fds', c')
  end.

(** [real::poll] stores into the [revents] fields of the caller's array. *)
Definition store_revents (stored : nat -> Z) (fds : list pollfd)
  : list pollfd :=
  imap (fun i p => set_revents (stored i) p) fds.

(** The result is the returned value and the array as [poll] leaves it;
    [None] when the call has not returned within [fuel] passes. *)
Definition poll (fuel : nat) (sys : Sys) (st : State) (fds : list pollfd)
    (timeout : Z) : option (Z * list pollfd) :=
  if (length fds =? 0)%nat then Some (0, fds)
  else
    let '(rdma_fds, normal_fds) := classify (bridge st) 0 fds in
    let polled :=
      if (length rdma_fds =? 0)%nat then
        let '(event_count, stored) := real_poll sys fds timeout in
        Some (inr (store_revents stored fds, event_count))
      else if (length normal_fds =? 0)%nat then
        match rdma_loop fuel sys (bridge st) timeout 0 rdma_fds fds 0 with
        | Some r => Some (inr r)
        | None => None
        end
      else Some (inl ERROR) in
    match polled with
    | None => None
    | Some (inl e) => Some (e, fds)
    | Some (inr (fds', event_count)) =>
        Some (event_count, map (set_revents 0) fds')
    end.

(** *** Sequences of calls *)

Inductive call :=
| call_accept (server_socket : Z)
| call_connect (sock : Z)
| call_write (sock : Z) (source : list Z)
| call_read (sock : Z) (requested_bytes : Z)
| call_send (sock : Z) (buffer : list Z) (flags : Z)
| call_recv (sock : Z) (length : Z) (flags : Z)
| call_close (sock : Z)
| call_fork.

(** The globals after one call ([poll] leaves them as they are). *)
Definition after (cfg : Config) (sys : Sys) (c : call) (st : State) : State :=
  match c with
  | call_accept s => fst (accept cfg sys st s)
  | call_connect s => fst (connect cfg sys st s)
  | call_write s source => fst (write cfg sys st s source)
  | call_read s n => fst (fst (read cfg sys st s n))
  | call_send s buffer flags => fst (send cfg sys st s buffer flags)
  | call_recv s n flags => fst (fst (recv cfg sys st s n flags))
  | call_close s => fst (close sys st s)
  | call_fork => fst (fork sys st)
  end.

(** The states a process can be in, when every answer of the operating
    system satisfies [ok]. *)
Inductive reachable (ok : Sys -> Prop) (cfg : Config) : State -> Prop :=
| reachable_initial : reachable ok cfg initial
| reachable_after sys c st :
    reachable ok cfg st -> ok sys -> reachable ok cfg (after cfg sys c st).

(** The globals once the ring [mb] of a marked descriptor has been built. *)
Definition built (st : State) (sock : Z) (mb : RDMAMessageBuffer) : State :=
  mkState (<[sock := mb]> (bridge st)) (rdmableSockets st ∖ {[sock]})
          (dontCloseRDMA st) (forkGeneration st).

(** Whether an entry of the array names a descriptor with a ring, whether
    an array has entries of both kinds, and the entries asking for POLLOUT. *)
Definition has_ring (b : gmap Z RDMAMessageBuffer) (p : pollfd) : bool :=
  match b !! fd p with Some _ => true | None => false end.

Definition mixed (b : gmap Z RDMAMessageBuffer) (fds : list pollfd) : bool :=
  existsb (has_ring b) fds && existsb (fun p => negb (has_ring b p)) fds.

Definition requests_out (p : pollfd) : bool :=
  negb (Z.land (events p) POLLOUT =? 0).

Definition count_requests_out (fds : list pollfd) : Z :=
  foldr (fun p acc => if requests_out p then acc + 1 else acc) 0 fds.

(** *** The calls forwarded to [send] and [recv] *)

(** The flags for which [send] and [recv] go on to [write] and [read]. *)
Definition plain_flags (flags : Z) : Prop :=
  flags = 0 \/ flags = MSG_NOSIGNAL.

Definition sendto (cfg : Config) (sys : Sys) (fw : Forwarded) (st : State)
    (sock : Z) (buffer : list Z) (flags : Z) (dest_addr : option (list Z))
  : State * result :=
  match dest_addr with
  | None => send cfg sys st sock buffer flags
  | Some addr => (st, Returns (real_sendto fw sock buffer flags addr))
  end.

Definition recvfrom (cfg : Config) (sys : Sys) (fw : Forwarded) (st : State)
    (sock : Z) (length : Z) (flags : Z) (src_addr : option (list Z))
  : State * result * list Z :=
  match src_addr with
  | None => recv cfg sys st sock length flags
  | Some _ =>
      let '(n, bytes) := real_recvfrom fw sock length flags in
      (st, Returns n, bytes)
  end.

Definition sendmsg (cfg : Config) (sys : Sys) (fw : Forwarded) (st : State)
    (sock : Z) (msg : msghdr) (flags : Z) : State * result :=
  match msg_iov msg with
  | [iov_base] => sendto cfg sys fw st sock iov_base flags (msg_name msg)
  | _ => (st, Returns (real_sendmsg fw sock msg flags))
  end.

Definition recvmsg (cfg : Config) (sys : Sys) (fw : Forwarded) (st : State)
    (sock : Z) (msg : msghdr) (flags : Z)
  : State * result * list (list Z) :=
  match msg_iov msg with
  | [iov_base] =>
      let '(st', r, bytes) :=
        recvfrom cfg sys fw st sock (Z.of_nat (List.length iov_base)) flags
                 (msg_name msg) in
      (st', r, [bytes])
  | _ =>
      let '(n, stored) := real_recvmsg fw sock msg flags in
      (st, Returns n, stored)
  end.

(** *** [fcntl] and the socket options *)

Definition fcntl_set (fw : Forwarded) (st : State)
    (sock command flags : Z) : Z :=
  match bridge st !! sock with
  | Some _ => SUCCESS
  | None => real_fcntl_set_flags fw sock command flags
  end.

Definition fcntl_get (fw : Forwarded) (st : State) (sock command : Z) : Z :=
  let flags := real_fcntl_get_flags fw sock command in
  match bridge st !! sock with
  | Some _ => Z.land flags (Z.lnot O_NONBLOCK)
  | None => flags
  end.

(** [argument] is the first optional argument, read only for the two
    setting commands. *)
Definition fcntl (fw : Forwarded) (st : State)
    (sock command argument : Z) : Z :=
  match bridge st !! sock with
  | Some _ => SUCCESS
  | None =>
      if (command =? F_SETFL) || (command =? F_SETFD)
      then fcntl_set fw st sock command argument
      else if (command =? F_GETFL) || (command =? F_GETFD)
      then fcntl_get fw st sock command
      else ERROR
  end.

Definition getsockopt (fw : Forwarded) (st : State)
    (sock level option_name : Z) : Z * list Z :=
  real_getsockopt_value fw sock level option_name.

Definition setsockopt (fw : Forwarded) (st : State)
    (sock level option_name : Z) (option_value : list Z) : Z :=
  match bridge st !! sock with
  | Some _ => SUCCESS
  | None => real_setsockopt fw sock level option_name option_value
  end.

(** *** [select], forwarded to [poll] *)

Definition fd_is_set (sock : Z) (set : option (gset Z)) : bool :=
  match set with
  | Some s => bool_decide (sock ∈ s)
  | None => false
  end.

Definition is_in_any_set (sock : Z) (sets : DescriptorSets) : bool :=
  fd_is_set sock (readfds sets) || fd_is_set sock (writefds sets)
  || fd_is_set sock (errorfds sets).

(** The descriptors [0, 1, ..., n - 1] a [for] loop runs through. *)
Definition descriptors_below (n : Z) : list Z :=
  map Z.of_nat (seq 0 (Z.to_nat n)).

(** [highest_fd] is a [size_t]: a negative [nfds] of [select] becomes a
    huge bound, and the loop reads beyond the sets.  That case is outside
    this model, which is for [0 <= nfds]. *)
Definition count_rdma_sockets (b : gmap Z RDMAMessageBuffer)
    (highest_fd : Z) (sets : DescriptorSets) : Z :=
  foldl (fun rdma_count sock =>
           if is_in_any_set sock sets then
             match b !! sock with
             | Some _ => rdma_count + 1
             | None => rdma_count
             end
           else rdma_count)
        0 (descriptors_below highest_fd).

(** C++ division truncates ([Z.quot]); the sum is a [long], the result an
    [int]. *)
Definition timeval_to_milliseconds (time : timeval) : Z :=
  let milliseconds := tv_sec time * 1000 in
  let milliseconds := milliseconds + Z.quot (tv_usec time) 1000 in
  to_int milliseconds.

(** One round of the loop of [select_to_poll]: [fds] is the array, [i] the
    index of the entry being filled. *)
Definition select_to_poll_step (sets : DescriptorSets)
    (acc : list pollfd * nat) (sock : Z) : list pollfd * nat :=
  let '(fds, i) := acc in
  let p0 := default (mkPollfd 0 0 0) (fds !! i) in
  let p1 :=
    if fd_is_set sock (readfds sets)
    then mkPollfd sock POLLIN (revents p0) else p0 in
  let p2 :=
    if fd_is_set sock (writefds sets)
    then mkPollfd sock (Z.lor (events p1) POLLOUT) (revents p1) else p1 in
  let p3 :=
    if fd_is_set sock (errorfds sets)
    then mkPollfd sock (events p2) (revents p2) else p2 in
  (<[i := p3]> fds, if fd p3 =? 0 then i else S i).

(** The array of [*nfds] value-initialised entries after the loop, and the
    new [*nfds]. *)
Definition select_to_poll (nfds : Z) (sets : DescriptorSets)
  : list pollfd * nat :=
  foldl (select_to_poll_step sets)
        (replicate (Z.to_nat nfds) (mkPollfd 0 0 0), 0%nat)
        (descriptors_below nfds).

Definition fd_set_add (sock : Z) (set : option (gset Z)) : option (gset Z) :=
  (fun s => {[sock]} ∪ s) <$> set.

(** One round of the loop of [poll_to_select]. *)
Definition poll_to_select_step (acc : DescriptorSets * Z) (p : pollfd)
  : DescriptorSets * Z :=
  let '(sets, cnt) := acc in
  let '(r, cnt) :=
    match readfds sets with
    | Some _ =>
        if negb (Z.land (revents p) (Z.lor POLLIN POLLHUP) =? 0)
        then (fd_set_add (fd p) (readfds sets), cnt + 1)
        else (readfds sets, cnt)
    | None => (readfds sets, cnt)
    end in
  let '(w, cnt) :=
    match writefds sets with
    | Some _ =>
        if negb (Z.land (revents p) POLLOUT =? 0)
        then (fd_set_add (fd p) (writefds sets), cnt + 1)
        else (writefds sets, cnt)
    | None => (writefds sets, cnt)
    end in
  let '(e, cnt) :=
    match errorfds sets with
    | Some _ =>
        if negb (Z.land (revents p) (Z.lnot (Z.lor POLLIN POLLOUT)) =? 0)
        then (fd_set_add (fd p) (errorfds sets), cnt + 1)
        else (errorfds sets, cnt)
    | None => (errorfds sets, cnt)
    end in
  (mkSets r w e, cnt).

Definition poll_to_select (fds : list pollfd) (sets : DescriptorSets)
  : DescriptorSets * Z :=
  foldl poll_to_select_step (sets, 0) fds.

(** The result is the returned value and the three sets as the call leaves
    them; [None] when [poll] has not returned within [fuel] passes. *)
Definition forward_to_poll (fuel : nat) (sys : Sys) (st : State) (nfds : Z)
    (sets : DescriptorSets) (timeout : option timeval)
  : option (Z * DescriptorSets) :=
  let '(pollfds, nfds') := select_to_poll nfds sets in
  let milliseconds :=
    match timeout with
    | Some time => timeval_to_milliseconds time
    | None => -1
    end in
  match poll fuel sys st (take nfds' pollfds) milliseconds with
  | None => None
  | Some (number_of_events, polled) =>
      let cleared := zero_sets sets in
      if 0 <? number_of_events
      then
        let '(sets', cnt) := poll_to_select polled cleared in
        Some (cnt, sets')
      else Some (number_of_events, cleared)
  end.

Definition select (fuel : nat) (sys : Sys) (fw : Forwarded) (st : State)
    (nfds : Z) (sets : DescriptorSets) (timeout : option timeval)
  : option (Z * DescriptorSets) :=
  if count_rdma_sockets (bridge st) nfds sets =? 0
  then Some (real_select fw nfds sets timeout)
  else forward_to_poll fuel sys st nfds sets timeout.

(** *** What one pass of [poll] counts *)

(** Whether an entry asks for POLLIN and the ring of its descriptor, as
    seen at pass [pass], holds a message. *)
Definition ready_in (sys : Sys) (b : gmap Z RDMAMessageBuffer) (pass : nat)
    (p : pollfd) : bool :=
  match b !! fd p with
  | Some msgBuf =>
      buffer_hasData (remote sys pass (fd p) msgBuf)
      && negb (Z.land (events p) POLLIN =? 0)
  | None => false
  end.

Definition count_events (sys : Sys) (b : gmap Z RDMAMessageBuffer)
    (pass : nat) (fds : list pollfd) : Z :=
  foldr (fun p acc =>
           acc + (if ready_in sys b pass p then 1 else 0)
               + (if requests_out p then 1 else 0))
        0 fds.

(** The entry [select_to_poll] is meant to build for a descriptor. *)
Definition entry_for (sets : DescriptorSets) (sock : Z) : pollfd :=
  mkPollfd sock
    (Z.lor (if fd_is_set sock (readfds sets) then POLLIN else 0)
           (if fd_is_set sock (writefds sets) then POLLOUT else 0))
    0.

End Overrides.

(** ** Concrete scenarios *)

Module Scenario.
Import MessageRing Posix.

Definition hello : list Z := [104; 101; 108; 108; 111].

(** A ring of 64 bytes after one message of 28 bytes has been sent and
    received: both cursors are at 40. *)
Definition ring_at_40 : Ring :=
  fst (receive 64 (fst (send (replicate 28 1) (fresh 64)))).


(** 127.0.0.1 as [s_addr] (network byte order, little-endian host). *)
Definition loopback : Z := 0x0100007F.

(** An operating system where every call succeeds: [accept] yields
    descriptor 7, every socket is an AF_INET stream socket whose peer has
    address [peer], writes take every byte, reads deliver nothing, [fork]
    answers as in the child, and the handshake answers [shake]. *)
Definition os (peer : Z) (shake : option ErrorKind) : Sys :=
  mkSys (fun _ => 7)
        (fun _ => (0, 0))
        (fun _ => (0, SOCK_STREAM))
        (fun _ => (0, AF_INET))
        (fun _ => (0, AF_INET))
        (fun _ => (0, AF_INET, peer))
        (fun _ source => Z.of_nat (length source))
        (fun _ _ => (0, []))
        (fun _ buffer _ => Z.of_nat (length buffer))
        (fun _ _ _ => (0, []))
        (fun _ => 0)
        0
        (fun _ _ => (1, fun _ => POLLIN))
        (fun _ _ => shake)
        (fun _ => 0)
        (fun _ _ mb => mb).

Definition parse_loopback (text : string) : option Z :=
  if String.eqb text "127.0.0.1" then Some loopback else None.

Definition parse_decimal_one (text : string) : option Z :=
  if String.eqb text "1" then Some 1 else None.

(** USE_RDMA=127.0.0.1, RDMA_FORKGEN unset. *)
Definition use_loopback : Overrides.Config :=
  Overrides.mkConfig (Some "127.0.0.1"%string) None
                     parse_loopback parse_decimal_one.

(** Neither variable set. *)
Definition nothing_set : Overrides.Config :=
  Overrides.mkConfig None None parse_loopback parse_decimal_one.

(** USE_RDMA=127.0.0.1, RDMA_FORKGEN=1. *)
Definition in_first_child : Overrides.Config :=
  Overrides.mkConfig (Some "127.0.0.1"%string) (Some "1"%string)
                     parse_loopback parse_decimal_one.

(** The second shim after [accept] has returned descriptor 7 for a peer on
    the selected address, and after the first [write] on it. *)
Definition marked : Overrides.State :=
  fst (Overrides.accept use_loopback (os loopback None) Overrides.initial 3).

Definition bridged : Overrides.State :=
  fst (Overrides.write use_loopback (os loopback None) marked 7 hello).

(** The second shim with one small ring, for descriptor 7. *)
Definition one_ring : Overrides.State :=
  Overrides.mkState {[ 7 := connected 64 ]} ∅ true 0.

(** Real calls that all succeed: sends take every byte, receives deliver
    nothing, the flags read are O_NONBLOCK, [select] reports one ready
    descriptor and leaves the sets as they are. *)
Definition forwarded : Forwarded :=
  mkForwarded (fun _ buffer _ _ => Z.of_nat (length buffer))
              (fun _ _ _ => (0, []))
              (fun _ _ _ => 1)
              (fun _ _ _ => (0, []))
              (fun _ _ _ => 0)
              (fun _ _ => O_NONBLOCK)
              (fun _ _ _ => (0, []))
              (fun _ _ _ _ => 0)
              (fun _ sets _ => (1, sets)).


(** As [os loopback None], but the real [write] and [send] take three
    bytes of whatever they are given. *)
Definition three_at_a_time : Sys :=
  let o := os loopback None in
  mkSys (real_accept o) (real_connect o) (real_getsockopt o)
        (real_getsockname o) (getsockname o) (getpeername o)
        (fun _ _ => 3) (real_read o) (fun _ _ _ => 3) (real_recv o)
        (real_close o) (real_fork o) (real_poll o) (handshake o)
        (elapsed_ns o) (remote o).

(** As [os loopback shake], but the accepted peer is gone before the shim
    asks for its address: [getpeername] fails with -1 and stores nothing,
    and the uninitialised [connectedAddr] it was to fill reads 0. *)
Definition peer_gone (shake : option ErrorKind) : Sys :=
  let o := os loopback shake in
  mkSys (real_accept o) (real_connect o) (real_getsockopt o)
        (real_getsockname o) (getsockname o) (fun _ => (-1, 0, 0))
        (real_write o) (real_read o) (real_send o) (real_recv o)
        (real_close o) (real_fork o) (real_poll o) (handshake o)
        (elapsed_ns o) (remote o).

(** Descriptor 7 is closed and the next [accept] returns the number 7
    again, for a new connection from the selected peer; then the process
    forks, and this is the child. *)
Definition reused : Overrides.State :=
  fst (Overrides.accept use_loopback (os loopback None)
         (fst (Overrides.close (os loopback None) bridged 7)) 3).

Definition reused_child : Overrides.State :=
  fst (Overrides.fork (os loopback None) reused).

End Scenario.

(** * Proofs *)

Import MessageRing Posix Scenario.

(** ** Small arithmetic helpers *)




(** ** Little-endian words *)



Section Memory.
Variable n : Z.
Variable k : Z.
Hypothesis Hk : 0 <= k.
Hypothesis Hn : n = 2 ^ k.












Lemma wr_bytes_zero (bs : list Z) (m : list Z) (p : Z) :
  Forall (eq 0) m -> Forall (eq 0) bs -> Forall (eq 0) (wr_bytes n m p bs).
Proof.
  revert m p. induction bs as [|b bs IH]; intros m p Hm Hbs; cbn; [exact Hm|].
  inversion Hbs; subst. apply IH; [|assumption].
  unfold wr. apply Forall_insert; auto.
Qed.




End Memory.



Section Frame.
Variable n : Z.
Variable k : Z.
Hypothesis Hk : 0 <= k <= 32.
Hypothesis Hn : n = 2 ^ k.
Variable m : list Z.
Hypothesis Hlen : length m = Z.to_nat n.
Variable b : list Z.
Hypothesis Hb : Z.of_nat (length b) + 8 <= n.
Variable start : Z.





End Frame.


(** [send] completes whenever the frame fits the space the receiver has
    freed, and then every byte of the frame is at its own cursor. *)
Lemma send_sent (b : list Z) (r : Ring) :
  FRAME + Z.of_nat (length b) <= bufferSize r - (writePos r - readPos r) ->
  send b r =
    (mkRing (bufferSize r)
            (wr_bytes (bufferSize r) (mem r) (writePos r) (frame b))
            (writePos r + (FRAME + Z.of_nat (length b)))
            (if bufferSize r - (writePos r - peerReadPos r)
                <? FRAME + Z.of_nat (length b)
             then readPos r else peerReadPos r)
            (readPos r) (lastPublished r),
     Sent).
Proof.
  intros Hfree. unfold send.
  destruct (Z.ltb_spec (bufferSize r - (writePos r - peerReadPos r))
                       (FRAME + Z.of_nat (length b))) as [Hshort|Hroom].
  - destruct (Z.ltb_spec (bufferSize r - (writePos r - readPos r))
                         (FRAME + Z.of_nat (length b))); [lia | reflexivity].
  - destruct (Z.ltb_spec (bufferSize r - (writePos r - peerReadPos r))
                         (FRAME + Z.of_nat (length b))); [lia | reflexivity].
Qed.






(** The wrap policy worded in section 4.2 does not go together with the
    receiver of section 4.3.  On the same ring, with 20 bytes to send, the
    padding sender leaves the 24-byte tail empty and writes the frame at the
    wrap boundary; the receiver finds a zero header at offset 40, where
    [40 + 12 > 64] does not hold, and sees no data.  Written across the wrap
    point by [send], the same message is received. *)
Lemma padded_tail_is_not_skipped :
  let b := replicate 20 2 in
  snd (send_padded b ring_at_40) = Sent /\
  snd (receive 64 (fst (send_padded b ring_at_40))) = RecvBlocks /\
  snd (receive 64 (fst (send b ring_at_40))) = Received b.
Proof. cbv zeta. repeat split; vm_compute; reflexivity. Qed.

(** ** Globals that only [fork] and [close] touch *)

Ltac split_call :=
  repeat match goal with
  | |- context [match ?x with _ => _ end] => destruct x eqn:?; cbn
  | |- context [if ?x then _ else _] => destruct x eqn:?; cbn
  end.

Lemma write_rec_flags (depth : nat) cfg sys st sock source :
  Overrides.dontCloseRDMA (fst (Overrides.write_rec depth cfg sys st sock source))
    = Overrides.dontCloseRDMA st /\
  Overrides.forkGeneration (fst (Overrides.write_rec depth cfg sys st sock source))
    = Overrides.forkGeneration st.
Proof.
  revert st. induction depth as [|depth IH]; intros st; cbn.
  - split_call; auto.
  - destruct (Overrides.bridge st !! sock); [split_call; auto|].
    destruct (Overrides.getForkGenIntercept cfg); [|auto].
    destruct (_ && _); [|auto].
    destruct (make_unique _ _ _); [auto|].
    rewrite !(proj1 (IH _)), !(proj2 (IH _)). auto.
Qed.

Lemma read_rec_flags (depth : nat) cfg sys st sock n :
  Overrides.dontCloseRDMA (fst (fst (Overrides.read_rec depth cfg sys st sock n)))
    = Overrides.dontCloseRDMA st /\
  Overrides.forkGeneration (fst (fst (Overrides.read_rec depth cfg sys st sock n)))
    = Overrides.forkGeneration st.
Proof.
  revert st. induction depth as [|depth IH]; intros st; cbn.
  - split_call; auto.
  - destruct (Overrides.bridge st !! sock); [split_call; auto|].
    destruct (Overrides.getForkGenIntercept cfg); [|auto].
    destruct (_ && _); [|split_call; auto].
    destruct (make_unique _ _ _); [auto|].
    rewrite !(proj1 (IH _)), !(proj2 (IH _)). auto.
Qed.

Lemma reachable_dontCloseRDMA ok cfg st :
  Overrides.reachable ok cfg st -> Overrides.dontCloseRDMA st = true.
Proof.
  induction 1 as [|sys c st Hr IH Hok]; [reflexivity|].
  destruct c; cbn [Overrides.after].
  - unfold Overrides.accept. split_call; assumption.
  - unfold Overrides.connect. split_call; assumption.
  - unfold Overrides.write. rewrite (proj1 (write_rec_flags _ _ _ _ _ _)). exact IH.
  - unfold Overrides.read. rewrite (proj1 (read_rec_flags _ _ _ _ _ _)). exact IH.
  - unfold Overrides.send. destruct (_ || _); [|exact IH].
    unfold Overrides.write. rewrite (proj1 (write_rec_flags _ _ _ _ _ _)). exact IH.
  - unfold Overrides.recv. destruct (_ || _).
    + unfold Overrides.read. rewrite (proj1 (read_rec_flags _ _ _ _ _ _)). exact IH.
    + destruct (real_recv _ _ _ _). exact IH.
  - unfold Overrides.close. rewrite IH. exact IH.
  - reflexivity.
Qed.

(** C4 (amended).  In the second shim version [close] never destroys a
    ring: in every state a process can reach, [dontCloseRDMA] is true (it
    starts true and [fork] only ever assigns true), so [bridge.erase] is
    skipped and the map of rings after [close(fd)] is the map before it. *)
Theorem close_never_destroys_ring ok cfg sys st sock :
  Overrides.reachable ok cfg st ->
  Overrides.dontCloseRDMA st = true /\
  Overrides.bridge (fst (Overrides.close sys st sock)) = Overrides.bridge st /\
  snd (Overrides.close sys st sock) = real_close sys sock.
Proof.
  intros Hr. pose proof (reachable_dontCloseRDMA _ _ _ Hr) as Hd.
  split; [exact Hd|]. unfold Overrides.close. rewrite Hd.
  split; reflexivity.
Qed.

(** ** The two paths of [write] and [read] *)

Lemma write_bridged cfg sys st sock source mb :
  Overrides.bridge st !! sock = Some mb ->
  Overrides.write cfg sys st sock source =
    (Overrides.with_bridge st
       (<[sock := fst (buffer_send source mb)]> (Overrides.bridge st)),
     match snd (buffer_send source mb) with
     | Sent => Returns (to_ssize (Z.of_nat (length source)))
     | SendBlocks => Blocks
     end).
Proof.
  intros Hb. unfold Overrides.write. cbn. rewrite Hb.
  destruct (buffer_send source mb) as [mb' []]; reflexivity.
Qed.

Lemma read_bridged cfg sys st sock n mb :
  Overrides.bridge st !! sock = Some mb ->
  Overrides.read cfg sys st sock n =
    (Overrides.with_bridge st
       (<[sock := fst (buffer_receive n mb)]> (Overrides.bridge st)),
     match snd (buffer_receive n mb) with
     | Received bytes => Returns (to_ssize (Z.of_nat (length bytes)))
     | RecvBlocks => Blocks
     | RecvFails e => Throws (core_error e)
     end,
     match snd (buffer_receive n mb) with
     | Received bytes => bytes
     | _ => []
     end).
Proof.
  intros Hb. unfold Overrides.read. cbn. rewrite Hb.
  destruct (buffer_receive n mb) as [mb' []]; reflexivity.
Qed.

(** Without ring, and unless the descriptor is marked in the intercepting
    generation, the call is the real one and the globals stay as they are. *)
Lemma write_forwarded cfg sys st sock source forkGen :
  Overrides.bridge st !! sock = None ->
  Overrides.getForkGenIntercept cfg = Some forkGen ->
  Overrides.forkGeneration st <> forkGen \/ sock ∉ Overrides.rdmableSockets st ->
  Overrides.write cfg sys st sock source
    = (st, Returns (real_write sys sock source)).
Proof.
  intros Hb Hg Hno. unfold Overrides.write. cbn. rewrite Hb, Hg.
  destruct Hno as [Hne|Hnotin].
  - destruct (Z.eqb_spec (Overrides.forkGeneration st) forkGen); [contradiction|].
    reflexivity.
  - rewrite bool_decide_eq_false_2 by exact Hnotin.
    rewrite andb_false_r. reflexivity.
Qed.

Lemma read_forwarded cfg sys st sock n forkGen :
  Overrides.bridge st !! sock = None ->
  Overrides.getForkGenIntercept cfg = Some forkGen ->
  Overrides.forkGeneration st <> forkGen \/ sock ∉ Overrides.rdmableSockets st ->
  Overrides.read cfg sys st sock n
    = (st, Returns (fst (real_read sys sock n)), snd (real_read sys sock n)).
Proof.
  intros Hb Hg Hno. unfold Overrides.read. cbn. rewrite Hb, Hg.
  destruct Hno as [Hne|Hnotin].
  - destruct (Z.eqb_spec (Overrides.forkGeneration st) forkGen); [contradiction|].
    cbn. destruct (real_read sys sock n). reflexivity.
  - rewrite bool_decide_eq_false_2 by exact Hnotin.
    rewrite andb_false_r. destruct (real_read sys sock n). reflexivity.
Qed.

Lemma write_builds cfg sys st sock source :
  Overrides.bridge st !! sock = None ->
  Overrides.getForkGenIntercept cfg = Some (Overrides.forkGeneration st) ->
  sock ∈ Overrides.rdmableSockets st ->
  Overrides.write cfg sys st sock source =
    match make_unique sys Overrides.BUFFER_SIZE sock with
    | inl x =>
        (Overrides.with_rdmable st (Overrides.rdmableSockets st ∖ {[sock]}),
         Throws x)
    | inr mb => Overrides.write cfg sys (Overrides.built st sock mb) sock source
    end.
Proof.
  intros Hb Hg Hin.
  destruct (make_unique sys Overrides.BUFFER_SIZE sock) as [x|mb] eqn:Hmk.
  - unfold Overrides.write. cbn. rewrite Hb, Hg, Hmk.
    rewrite Z.eqb_refl, bool_decide_eq_true_2 by exact Hin. reflexivity.
  - rewrite (write_bridged cfg sys (Overrides.built st sock mb) sock source mb)
      by (cbn; apply lookup_insert_eq).
    unfold Overrides.write. cbn. rewrite Hb, Hg, Hmk.
    rewrite Z.eqb_refl, bool_decide_eq_true_2 by exact Hin. cbn.
    rewrite lookup_insert_eq.
    destruct (buffer_send source mb) as [mb' []]; reflexivity.
Qed.

Lemma read_builds cfg sys st sock n :
  Overrides.bridge st !! sock = None ->
  Overrides.getForkGenIntercept cfg = Some (Overrides.forkGeneration st) ->
  sock ∈ Overrides.rdmableSockets st ->
  Overrides.read cfg sys st sock n =
    match make_unique sys Overrides.BUFFER_SIZE sock with
    | inl x =>
        (Overrides.with_rdmable st (Overrides.rdmableSockets st ∖ {[sock]}),
         Throws x, [])
    | inr mb => Overrides.read cfg sys (Overrides.built st sock mb) sock n
    end.
Proof.
  intros Hb Hg Hin.
  destruct (make_unique sys Overrides.BUFFER_SIZE sock) as [x|mb] eqn:Hmk.
  - unfold Overrides.read. cbn. rewrite Hb, Hg, Hmk.
    rewrite Z.eqb_refl, bool_decide_eq_true_2 by exact Hin. reflexivity.
  - rewrite (read_bridged cfg sys (Overrides.built st sock mb) sock n mb)
      by (cbn; apply lookup_insert_eq).
    unfold Overrides.read. cbn. rewrite Hb, Hg, Hmk.
    rewrite Z.eqb_refl, bool_decide_eq_true_2 by exact Hin. cbn.
    rewrite lookup_insert_eq.
    destruct (buffer_receive n mb) as [mb' []]; reflexivity.
Qed.

Lemma marked_state :
  Overrides.bridge marked = ∅ /\
  Overrides.rdmableSockets marked = {[7]} ∪ ∅ /\
  Overrides.forkGeneration marked = 0 /\
  Overrides.dontCloseRDMA marked = true.
Proof. repeat split. Qed.

Lemma bridged_state :
  exists mb, Overrides.bridge bridged !! 7 = Some mb.
Proof.
  unfold bridged.
  rewrite write_builds.
  - cbn [make_unique os handshake].
    erewrite write_bridged by (cbn; apply lookup_insert_eq).
    cbn [fst Overrides.with_bridge Overrides.bridge]. eexists. apply lookup_insert_eq.
  - reflexivity.
  - reflexivity.
  - destruct marked_state as (_ & -> & _). set_solver.
Qed.

(** C4 (as stated) fails.  Descriptor 7 has been accepted from the selected
    peer and written to, so that its ring exists; after [close 7] the ring is
    still in [bridge]. *)
Lemma close_keeps_ring :
  Overrides.reachable (fun _ => True) use_loopback bridged /\
  is_Some (Overrides.bridge bridged !! 7) /\
  Overrides.bridge (fst (Overrides.close (os loopback None) bridged 7)) !! 7
    = Overrides.bridge bridged !! 7 /\
  Overrides.bridge (fst (Overrides.close (os loopback None) bridged 7)) !! 7
    <> None.
Proof.
  split.
  { apply (Overrides.reachable_after _ _ (os loopback None)
             (Overrides.call_write 7 hello)); [|exact I].
    apply (Overrides.reachable_after _ _ (os loopback None)
             (Overrides.call_accept 3)); [|exact I].
    apply Overrides.reachable_initial. }
  split; [exact bridged_state|].
  assert (Hsame :
    Overrides.bridge (fst (Overrides.close (os loopback None) bridged 7)) !! 7
      = Overrides.bridge bridged !! 7) by reflexivity.
  split; [exact Hsame|].
  rewrite Hsame. destruct bridged_state as [mb ->]. discriminate.
Qed.

(** C4 (amended) at the state reached by one [accept]. *)
Lemma close_never_destroys_ring_witness :
  Overrides.dontCloseRDMA marked = true /\
  Overrides.bridge (fst (Overrides.close (os loopback None) marked 7))
    = Overrides.bridge marked /\
  snd (Overrides.close (os loopback None) marked 7)
    = real_close (os loopback None) 7.
Proof.
  apply (close_never_destroys_ring (fun _ => True) use_loopback).
  apply (Overrides.reachable_after _ _ (os loopback None)
           (Overrides.call_accept 3)); [|exact I].
  apply Overrides.reachable_initial.
Defined.

(** In the first version [close] always erases the entry. *)
Lemma first_version_close_erases sys (bridge : gmap Z RDMAMessageBuffer) sock :
  fst (SocketOverrides.close sys bridge sock) !! sock = None.
Proof. cbn. apply lookup_delete_eq. Qed.

(** ** A destination that is too small *)




Lemma to_ssize_small (n : Z) : 0 <= n < 2 ^ 63 -> to_ssize n = n.
Proof.
  intros Hn. unfold to_ssize. rewrite Z.mod_small by lia.
  destruct (Z.ltb_spec n (2 ^ 63)); lia.
Qed.

(** In the first shim version [accept] and [connect] take the value
    returned by [real::getsockopt] for the socket type; it is 0 or -1, never
    [SOCK_STREAM], so that no ring is ever registered. *)
Lemma first_version_no_ring (bridge0 : gmap Z RDMAMessageBuffer) :
  SocketOverrides.reachable getsockopt_conforms bridge0 -> bridge0 = ∅.
Proof.
  induction 1 as [|sys c bridge0 Hr IH Hok]; [reflexivity|].
  subst bridge0.
  assert (Hty : forall s, (fst (real_getsockopt sys s) =? SOCK_STREAM) = false).
  { intros s. apply Z.eqb_neq. unfold SOCK_STREAM. destruct (Hok s); lia. }
  destruct c; cbn [SocketOverrides.after].
  - unfold SocketOverrides.accept.
    destruct (_ <? 0); [reflexivity|].
    destruct (_ <? 0); [reflexivity|].
    destruct (real_getsockname sys server_socket) as [rc ss_family].
    destruct (_ <? 0); [reflexivity|].
    rewrite Hty. reflexivity.
  - unfold SocketOverrides.connect.
    destruct (_ =? ERROR); [reflexivity|].
    destruct (_ <? 0); [reflexivity|].
    destruct (getpeername sys sock) as [[rc ss_family] addr].
    destruct (_ <? 0); [reflexivity|].
    rewrite Hty. reflexivity.
  - unfold SocketOverrides.write. rewrite lookup_empty. reflexivity.
  - unfold SocketOverrides.read. rewrite lookup_empty.
    destruct (real_read sys sock requested_bytes). reflexivity.
  - unfold SocketOverrides.send, SocketOverrides.write.
    rewrite lookup_empty. destruct (_ || _); reflexivity.
  - unfold SocketOverrides.recv, SocketOverrides.read.
    rewrite lookup_empty.
    destruct (_ || _); [destruct (real_read sys sock length) |
                        destruct (real_recv sys sock length flags)]; reflexivity.
  - cbn. apply delete_empty.
Qed.






(** ** The value returned by [write] and [send] *)

Lemma plain_flags_test flags :
  Overrides.plain_flags flags -> (flags =? 0) || (flags =? MSG_NOSIGNAL) = true.
Proof. intros [->| ->]; reflexivity. Qed.

Lemma bridged_reachable :
  Overrides.reachable (fun _ => True) use_loopback bridged.
Proof.
  apply (Overrides.reachable_after _ _ (os loopback None)
           (Overrides.call_write 7 hello)); [|exact I].
  apply (Overrides.reachable_after _ _ (os loopback None)
           (Overrides.call_accept 3)); [|exact I].
  apply Overrides.reachable_initial.
Qed.

(** The ring of descriptor 7 after the first [write]. *)
Lemma bridged_ring :
  Overrides.bridge bridged !! 7
    = Some (fst (buffer_send hello (connected Overrides.BUFFER_SIZE))).
Proof.
  unfold bridged.
  rewrite write_builds.
  - cbn [make_unique os handshake].
    erewrite write_bridged by (cbn; apply lookup_insert_eq).
    cbn [fst Overrides.with_bridge Overrides.bridge]. apply lookup_insert_eq.
  - reflexivity.
  - reflexivity.
  - destruct marked_state as (_ & -> & _). set_solver.
Qed.

(** A second "hello" fits the ring of descriptor 7. *)
Lemma bridged_ring_takes_hello :
  snd (buffer_send hello
         (fst (buffer_send hello (connected Overrides.BUFFER_SIZE)))) = Sent.
Proof.
  unfold buffer_send at 1.
  rewrite (send_sent hello
             (tx (fst (buffer_send hello (connected Overrides.BUFFER_SIZE))))).
  - reflexivity.
  - unfold buffer_send.
    rewrite send_sent by (cbn; unfold Overrides.BUFFER_SIZE, FRAME; lia).
    cbn. unfold Overrides.BUFFER_SIZE, FRAME. lia.
Qed.

(** C5 (as stated) fails.  Descriptor 7 has its ring.  [send] with a flag
    other than MSG_NOSIGNAL is routed to the real [send], which takes three
    of the five bytes: the call returns 3, and nothing went into the
    ring. *)
Lemma send_with_other_flags_returns_partial_count :
  Overrides.reachable (fun _ => True) use_loopback bridged /\
  is_Some (Overrides.bridge bridged !! 7) /\
  Z.of_nat (length hello) = 5 /\
  Overrides.send use_loopback three_at_a_time bridged 7 hello MSG_DONTWAIT
    = (bridged, Returns 3).
Proof.
  split; [exact bridged_reachable|].
  split; [rewrite bridged_ring; eexists; reflexivity|].
  split; reflexivity.
Qed.

(** C5 (amended).  In the second shim version, [write] on a descriptor with
    a ring hands the whole payload to the ring's [send] in one piece: either
    [send] completes, every byte of the frame is in the peer's ring, the
    write cursor has moved on by 12 plus the payload length, and the call
    returns the full count; or it never returns.  [send] with flags 0 or
    MSG_NOSIGNAL is this [write]; with any other flags it is the real
    [send], and the ring is not used. *)
Theorem write_reports_full_count cfg sys st sock source flags mb :
  Overrides.bridge st !! sock = Some mb ->
  Z.of_nat (length source) < 2 ^ 63 ->
  Overrides.write cfg sys st sock source
    = (Overrides.with_bridge st
         (<[sock := fst (buffer_send source mb)]> (Overrides.bridge st)),
       match snd (buffer_send source mb) with
       | Sent => Returns (Z.of_nat (length source))
       | SendBlocks => Blocks
       end) /\
  (snd (buffer_send source mb) = Sent ->
     mem (tx (fst (buffer_send source mb)))
       = wr_bytes (bufferSize (tx mb)) (mem (tx mb)) (writePos (tx mb))
                  (frame source) /\
     writePos (tx (fst (buffer_send source mb)))
       = writePos (tx mb) + (12 + Z.of_nat (length source))) /\
  (Overrides.plain_flags flags ->
     Overrides.send cfg sys st sock source flags
       = Overrides.write cfg sys st sock source) /\
  (~ Overrides.plain_flags flags ->
     Overrides.send cfg sys st sock source flags
       = (st, Returns (real_send sys sock source flags))).
Proof.
  intros Hb Hn.
  split.
  { rewrite (write_bridged cfg sys st sock source mb Hb).
    rewrite to_ssize_small by lia. reflexivity. }
  split.
  { unfold buffer_send, send.
    destruct (_ <? _); cbn [fst snd tx mem writePos]; [discriminate|].
    intros _. split; reflexivity. }
  unfold Overrides.send.
  split; intros Hf.
  - apply plain_flags_test in Hf. rewrite Hf. reflexivity.
  - destruct ((flags =? 0) || (flags =? MSG_NOSIGNAL)) eqn:E; [|reflexivity].
    contradiction Hf. apply orb_true_iff in E as [E|E]; apply Z.eqb_eq in E;
      [left | right]; exact E.
Qed.

(** C5 (amended) on descriptor 7 after its first [write]: a second [write]
    of "hello" returns 5, and [send] with MSG_NOSIGNAL is that [write]. *)
Lemma write_reports_full_count_witness :
  snd (Overrides.write use_loopback (os loopback None) bridged 7 hello)
    = Returns 5 /\
  Overrides.send use_loopback (os loopback None) bridged 7 hello MSG_NOSIGNAL
    = Overrides.write use_loopback (os loopback None) bridged 7 hello.
Proof.
  destruct (write_reports_full_count use_loopback (os loopback None) bridged 7
              hello MSG_NOSIGNAL _ bridged_ring ltac:(cbn; lia))
    as (Hw & _ & Hplain & _).
  split; [|apply Hplain; right; reflexivity].
  rewrite Hw. cbn [snd]. rewrite bridged_ring_takes_hello. reflexivity.
Defined.

(** ** [accept] *)

(** C9.  Let the real [accept] succeed with descriptor [client_socket].
    In the second shim version, if the connection is not selected for
    interception, [accept] returns 0 and leaves the globals as they are.
    In the first version [accept] returns 0, or [ERROR] when one of its
    later steps fails; so neither ever hands out the accepted descriptor
    (unless that descriptor is 0 itself). *)
Theorem accept_returns_success_not_descriptor cfg sys st
    (bridge0 : gmap Z RDMAMessageBuffer) server_socket :
  0 <= real_accept sys server_socket ->
  let client_socket := real_accept sys server_socket in
  let first := snd (SocketOverrides.accept sys bridge0 server_socket) in
  (Overrides.shouldServerIntercept cfg sys server_socket client_socket = false ->
     Overrides.accept cfg sys st server_socket = (st, 0)) /\
  (first = 0 \/
   first = ERROR /\
   (fst (real_getsockopt sys server_socket) < 0 \/
    fst (real_getsockname sys server_socket) < 0 \/
    is_Some (handshake sys (4 * 1024) client_socket))) /\
  (client_socket <> 0 ->
     first <> client_socket /\
     (Overrides.shouldServerIntercept cfg sys server_socket client_socket = false ->
        snd (Overrides.accept cfg sys st server_socket) <> client_socket)).
Proof.
  intros Hacc client_socket first.
  assert (Hlt : (client_socket <? 0) = false) by (apply Z.ltb_ge; exact Hacc).
  assert (Hsecond :
    Overrides.shouldServerIntercept cfg sys server_socket client_socket = false ->
    Overrides.accept cfg sys st server_socket = (st, 0)).
  { intros Hno. unfold Overrides.accept. fold client_socket.
    rewrite Hlt, Hno. reflexivity. }
  assert (Hfirst :
    first = 0 \/
    first = ERROR /\
    (fst (real_getsockopt sys server_socket) < 0 \/
     fst (real_getsockname sys server_socket) < 0 \/
     is_Some (handshake sys (4 * 1024) client_socket))).
  { unfold first, SocketOverrides.accept. fold client_socket. rewrite Hlt.
    destruct (Z.ltb_spec (fst (real_getsockopt sys server_socket)) 0) as [Hso|Hso];
      [right; auto|].
    destruct (real_getsockname sys server_socket) as [rc ss_family] eqn:Hname.
    cbn [fst].
    destruct (Z.ltb_spec rc 0) as [Hrc|Hrc]; [right; auto|].
    destruct (negb _); [left; reflexivity|].
    unfold make_unique.
    destruct (handshake sys (4 * 1024) client_socket) as [e|] eqn:Hs.
    - right. split; [reflexivity|]. right. right. eexists. reflexivity.
    - left. reflexivity. }
  split; [exact Hsecond|]. split; [exact Hfirst|].
  intros Hnz. split.
  - destruct Hfirst as [->|[-> _]]; unfold ERROR; lia.
  - intros Hno. rewrite (Hsecond Hno). cbn. lia.
Qed.

(** C9 for the listening socket 3 and the accepted descriptor 7, with a peer
    that is not the selected one. *)
Lemma accept_returns_success_not_descriptor_witness :
  let sys := os 0 None in
  Overrides.accept use_loopback sys Overrides.initial 3
    = (Overrides.initial, 0) /\
  snd (SocketOverrides.accept sys ∅ 3) = 0 /\
  snd (SocketOverrides.accept sys ∅ 3) <> 7 /\
  snd (Overrides.accept use_loopback sys Overrides.initial 3) <> 7.
Proof.
  destruct (accept_returns_success_not_descriptor
              use_loopback (os 0 None) Overrides.initial ∅ 3)
    as (Hsecond & Hfirst & Hnever).
  - cbn. lia.
  - split; [apply Hsecond; reflexivity|].
    split; [reflexivity|].
    split; [apply Hnever; cbn; lia|].
    apply Hnever; [cbn; lia | reflexivity].
Defined.

(** ** Failure of the construction *)

(** C3 (as stated) fails.  Descriptor 7 is marked and the handshake fails:
    the first [write] on it is not served by the TCP socket; the exception
    of the constructor leaves [write] and reaches the application. *)
Lemma construction_failure_reaches_application :
  let sys := os loopback (Some HandshakeFailed) in
  7 ∈ Overrides.rdmableSockets marked /\
  make_unique sys Overrides.BUFFER_SIZE 7 = inl (core_error HandshakeFailed) /\
  snd (Overrides.write use_loopback sys marked 7 hello)
    = Throws (core_error HandshakeFailed) /\
  snd (Overrides.write use_loopback sys marked 7 hello)
    <> Returns (real_write sys 7 hello).
Proof.
  cbv zeta.
  assert (Hin : 7 ∈ Overrides.rdmableSockets marked).
  { destruct marked_state as (_ & -> & _). set_solver. }
  split; [exact Hin|]. split; [reflexivity|].
  rewrite write_builds by (reflexivity || exact Hin).
  split; [reflexivity | discriminate].
Qed.

(** C3 (amended).  When the construction of the ring fails during the first
    [read] or [write] on a marked descriptor, that call ends with the
    constructor's exception; the descriptor is no longer marked and has no
    ring, and every later [read] and [write] on it is the real call on the
    TCP socket. *)
Theorem construction_failure_fallback cfg sys st sock source n x :
  Overrides.bridge st !! sock = None ->
  Overrides.getForkGenIntercept cfg = Some (Overrides.forkGeneration st) ->
  sock ∈ Overrides.rdmableSockets st ->
  make_unique sys Overrides.BUFFER_SIZE sock = inl x ->
  let st' :=
    Overrides.with_rdmable st (Overrides.rdmableSockets st ∖ {[sock]}) in
  Overrides.write cfg sys st sock source = (st', Throws x) /\
  Overrides.read cfg sys st sock n = (st', Throws x, []) /\
  Overrides.bridge st' = Overrides.bridge st /\
  (forall sys' source',
     Overrides.write cfg sys' st' sock source'
       = (st', Returns (real_write sys' sock source'))) /\
  (forall sys' n',
     Overrides.read cfg sys' st' sock n'
       = (st', Returns (fst (real_read sys' sock n')),
          snd (real_read sys' sock n'))).
Proof.
  intros Hb Hg Hin Hmk st'.
  split; [rewrite write_builds, Hmk by assumption; reflexivity|].
  split; [rewrite read_builds, Hmk by assumption; reflexivity|].
  split; [reflexivity|].
  split.
  - intros sys' source'.
    apply (write_forwarded cfg sys' st' sock source' (Overrides.forkGeneration st));
      [exact Hb | exact Hg | right; cbn; apply not_elem_of_difference; right; apply elem_of_singleton; reflexivity].
  - intros sys' n'.
    apply (read_forwarded cfg sys' st' sock n' (Overrides.forkGeneration st));
      [exact Hb | exact Hg | right; cbn; apply not_elem_of_difference; right; apply elem_of_singleton; reflexivity].
Qed.

(** C3 (amended) for descriptor 7 and a failing handshake. *)
Lemma construction_failure_fallback_witness :
  let sys := os loopback (Some HandshakeFailed) in
  let st' :=
    Overrides.with_rdmable marked (Overrides.rdmableSockets marked ∖ {[7]}) in
  Overrides.write use_loopback sys marked 7 hello
    = (st', Throws (core_error HandshakeFailed)) /\
  Overrides.read use_loopback sys marked 7 16
    = (st', Throws (core_error HandshakeFailed), []) /\
  Overrides.bridge st' = Overrides.bridge marked /\
  (forall sys' source',
     Overrides.write use_loopback sys' st' 7 source'
       = (st', Returns (real_write sys' 7 source'))) /\
  (forall sys' n',
     Overrides.read use_loopback sys' st' 7 n'
       = (st', Returns (fst (real_read sys' 7 n')), snd (real_read sys' 7 n'))).
Proof.
  apply (construction_failure_fallback use_loopback
           (os loopback (Some HandshakeFailed)) marked 7 hello 16
           (core_error HandshakeFailed)).
  - reflexivity.
  - reflexivity.
  - apply (bool_decide_unpack _). vm_compute. exact I.
  - reflexivity.
Defined.

(** The first version registers a ring in [accept] only when the value
    returned by [real::getsockopt], which it takes for the socket type, is
    [SOCK_STREAM]. *)
Lemma first_version_accept_registers sys
    (bridge0 : gmap Z RDMAMessageBuffer) server_socket :
  fst (SocketOverrides.accept sys bridge0 server_socket) <> bridge0 ->
  fst (real_getsockopt sys server_socket) = SOCK_STREAM.
Proof.
  unfold SocketOverrides.accept.
  destruct (_ <? 0); [intros H; contradiction H; reflexivity|].
  destruct (_ <? 0); [intros H; contradiction H; reflexivity|].
  destruct (real_getsockname sys server_socket) as [rc ss_family].
  destruct (_ <? 0); [intros H; contradiction H; reflexivity|].
  destruct (Z.eqb_spec (fst (real_getsockopt sys server_socket)) SOCK_STREAM)
    as [Heq|Hne]; [intros _; exact Heq|].
  cbn. intros H. contradiction H. reflexivity.
Qed.

(** The first version: a failing constructor makes [accept] report [ERROR];
    the map is left as it was. *)
Lemma first_version_accept_construction_fails sys
    (bridge0 : gmap Z RDMAMessageBuffer) server_socket e :
  0 <= real_accept sys server_socket ->
  fst (real_getsockopt sys server_socket) = SOCK_STREAM ->
  real_getsockname sys server_socket = (0, AF_INET) ->
  handshake sys (4 * 1024) (real_accept sys server_socket) = Some e ->
  SocketOverrides.accept sys bridge0 server_socket = (bridge0, ERROR).
Proof.
  intros Hacc Hty Hname Hs. unfold SocketOverrides.accept.
  rewrite (proj2 (Z.ltb_ge _ _) Hacc), Hty, Hname. cbn.
  unfold make_unique. rewrite Hs. reflexivity.
Qed.

(** ** The fork generation gate *)

Lemma marking_builds_no_ring cfg sys st s :
  Overrides.bridge (fst (Overrides.accept cfg sys st s)) = Overrides.bridge st /\
  Overrides.bridge (fst (Overrides.connect cfg sys st s)) = Overrides.bridge st.
Proof.
  split.
  - unfold Overrides.accept. split_call; reflexivity.
  - unfold Overrides.connect. split_call; reflexivity.
Qed.

Lemma reused_child_state :
  Overrides.bridge reused_child = Overrides.bridge bridged /\
  7 ∈ Overrides.rdmableSockets reused_child /\
  Overrides.forkGeneration reused_child = 1.
Proof.
  unfold reused_child, reused.
  set (closed := fst (Overrides.close (os loopback None) bridged 7)).
  assert (Hacc : Overrides.accept use_loopback (os loopback None) closed 3
                 = (Overrides.with_rdmable closed
                      ({[7]} ∪ Overrides.rdmableSockets closed), 7))
    by reflexivity.
  rewrite Hacc. cbn [fst Overrides.fork Overrides.bridge Overrides.rdmableSockets
                     Overrides.forkGeneration Overrides.with_rdmable].
  split.
  - unfold closed, Overrides.close.
    rewrite (reachable_dontCloseRDMA _ _ _ bridged_reachable). reflexivity.
  - split; [set_solver|].
    unfold closed, Overrides.close.
    rewrite (reachable_dontCloseRDMA _ _ _ bridged_reachable).
    cbn [negb fst].
    change (real_fork (os loopback None) =? 0) with true. cbn match.
    unfold bridged, Overrides.write.
    rewrite (proj2 (write_rec_flags _ _ _ _ _ _)). reflexivity.
Qed.

Lemma reused_child_reachable :
  Overrides.reachable (fun _ => True) use_loopback reused_child.
Proof.
  apply (Overrides.reachable_after _ _ (os loopback None) Overrides.call_fork);
    [|exact I].
  apply (Overrides.reachable_after _ _ (os loopback None)
           (Overrides.call_accept 3)); [|exact I].
  apply (Overrides.reachable_after _ _ (os loopback None)
           (Overrides.call_close 7)); [|exact I].
  exact bridged_reachable.
Qed.

(** C7 (as stated) fails.  Descriptor 7 is accepted from the selected peer
    and written to in generation 0, the generation of the gate, so that its
    ring is built; it is closed, and the next [accept] returns the number 7
    again and marks it.  After [fork] the child is in generation 1.  There
    [write] on the marked descriptor does not fall through to the real
    [write], which would take three bytes: the ring of the closed connection
    is still registered, the five bytes go into it, and 5 is returned. *)
Lemma other_generation_served_by_old_ring :
  Overrides.reachable (fun _ => True) use_loopback reused_child /\
  7 ∈ Overrides.rdmableSockets reused_child /\
  Overrides.forkGeneration reused_child = 1 /\
  Overrides.getForkGenIntercept use_loopback = Some 0 /\
  real_write three_at_a_time 7 hello = 3 /\
  snd (Overrides.write use_loopback three_at_a_time reused_child 7 hello)
    = Returns 5 /\
  Overrides.write use_loopback three_at_a_time reused_child 7 hello
    <> (reused_child, Returns (real_write three_at_a_time 7 hello)).
Proof.
  destruct reused_child_state as (Hb & Hin & Hgen).
  assert (Hring : Overrides.bridge reused_child !! 7
                  = Some (fst (buffer_send hello
                                 (connected Overrides.BUFFER_SIZE))))
    by (rewrite Hb; exact bridged_ring).
  assert (Hw : snd (Overrides.write use_loopback three_at_a_time
                      reused_child 7 hello) = Returns 5).
  { rewrite (write_bridged _ _ _ _ _ _ Hring). cbn [snd].
    rewrite bridged_ring_takes_hello. reflexivity. }
  split; [exact reused_child_reachable|].
  split; [exact Hin|]. split; [exact Hgen|].
  split; [reflexivity|]. split; [reflexivity|].
  split; [exact Hw|].
  intros Heq. rewrite Heq in Hw. discriminate Hw.
Qed.

(** C7 (amended).  [fork] adds one to [forkGeneration] exactly when the
    real [fork] answers 0, i.e. in the child.  Marking a socket in [accept]
    or [connect] builds no ring.  For a marked descriptor without ring, the
    first [read] or [write] in the generation given by RDMA_FORKGEN builds
    the ring and goes on as a call on the ring (or ends with the
    constructor's exception); in any other generation the call is the real
    one and the globals stay as they are.  A marked descriptor whose number
    still has a ring, left by an earlier connection, is served by that ring
    in every generation. *)
Theorem fork_generation_gate cfg sys st sock source n forkGen :
  Overrides.getForkGenIntercept cfg = Some forkGen ->
  sock ∈ Overrides.rdmableSockets st ->
  (* fork *)
  Overrides.fork sys st =
    (Overrides.mkState (Overrides.bridge st) (Overrides.rdmableSockets st) true
       (if real_fork sys =? 0
        then (Overrides.forkGeneration st + 1) mod 2 ^ 64
        else Overrides.forkGeneration st),
     real_fork sys) /\
  (* marking a socket builds nothing *)
  (forall s,
     Overrides.bridge (fst (Overrides.accept cfg sys st s)) = Overrides.bridge st /\
     Overrides.bridge (fst (Overrides.connect cfg sys st s)) = Overrides.bridge st) /\
  (* the first read or write in the configured generation *)
  (Overrides.bridge st !! sock = None ->
   Overrides.forkGeneration st = forkGen ->
     match make_unique sys Overrides.BUFFER_SIZE sock with
     | inr mb =>
         Overrides.write cfg sys st sock source
           = Overrides.write cfg sys (Overrides.built st sock mb) sock source /\
         Overrides.read cfg sys st sock n
           = Overrides.read cfg sys (Overrides.built st sock mb) sock n /\
         Overrides.bridge (Overrides.built st sock mb) !! sock = Some mb /\
         is_Some (Overrides.bridge (fst (Overrides.write cfg sys st sock source)) !! sock) /\
         is_Some (Overrides.bridge (fst (fst (Overrides.read cfg sys st sock n))) !! sock)
     | inl x =>
         snd (Overrides.write cfg sys st sock source) = Throws x /\
         snd (fst (Overrides.read cfg sys st sock n)) = Throws x
     end) /\
  (* any other generation *)
  (Overrides.bridge st !! sock = None ->
   Overrides.forkGeneration st <> forkGen ->
     Overrides.write cfg sys st sock source
       = (st, Returns (real_write sys sock source)) /\
     Overrides.read cfg sys st sock n
       = (st, Returns (fst (real_read sys sock n)), snd (real_read sys sock n))) /\
  (* a ring left by an earlier connection, in any generation *)
  (forall mb, Overrides.bridge st !! sock = Some mb ->
     Overrides.write cfg sys st sock source
       = (Overrides.with_bridge st
            (<[sock := fst (buffer_send source mb)]> (Overrides.bridge st)),
          match snd (buffer_send source mb) with
          | Sent => Returns (to_ssize (Z.of_nat (length source)))
          | SendBlocks => Blocks
          end) /\
     Overrides.read cfg sys st sock n
       = (Overrides.with_bridge st
            (<[sock := fst (buffer_receive n mb)]> (Overrides.bridge st)),
          match snd (buffer_receive n mb) with
          | Received bytes => Returns (to_ssize (Z.of_nat (length bytes)))
          | RecvBlocks => Blocks
          | RecvFails e => Throws (core_error e)
          end,
          match snd (buffer_receive n mb) with
          | Received bytes => bytes
          | _ => []
          end)).
Proof.
  intros Hg Hin.
  split; [reflexivity|].
  split; [intros s; apply marking_builds_no_ring|].
  split; [|split].
  - intros Hb Heq. subst forkGen.
    rewrite (write_builds cfg sys st sock source Hb Hg Hin).
    rewrite (read_builds cfg sys st sock n Hb Hg Hin).
    destruct (make_unique sys Overrides.BUFFER_SIZE sock) as [x|mb];
      [split; reflexivity|].
    assert (Hmb : Overrides.bridge (Overrides.built st sock mb) !! sock = Some mb)
      by (cbn; apply lookup_insert_eq).
    split; [reflexivity|]. split; [reflexivity|]. split; [exact Hmb|].
    rewrite (write_bridged _ _ _ _ _ _ Hmb), (read_bridged _ _ _ _ _ _ Hmb).
    cbn [fst Overrides.with_bridge Overrides.bridge].
    split; eexists; apply lookup_insert_eq.
  - intros Hb Hne. split.
    + apply (write_forwarded cfg sys st sock source forkGen Hb Hg). left. exact Hne.
    + apply (read_forwarded cfg sys st sock n forkGen Hb Hg). left. exact Hne.
  - intros mb Hb. split.
    + exact (write_bridged cfg sys st sock source mb Hb).
    + exact (read_bridged cfg sys st sock n mb Hb).
Qed.

(** C7 (amended) with RDMA_FORKGEN=1 and descriptor 7 marked in the
    parent. *)
Lemma fork_generation_gate_witness :
  let sys := os loopback None in
  let child := fst (Overrides.fork sys marked) in
  (* in the parent, generation 0, the call is the real one *)
  Overrides.write in_first_child sys marked 7 hello = (marked, Returns 5) /\
  (* fork: generation 1 in the child *)
  Overrides.forkGeneration child = 1 /\
  (* in the child the first write builds the ring *)
  is_Some (Overrides.bridge
             (fst (Overrides.write in_first_child sys child 7 hello)) !! 7).
Proof.
  cbv zeta.
  assert (Hin : 7 ∈ Overrides.rdmableSockets marked)
    by (apply (bool_decide_unpack _); vm_compute; exact I).
  destruct (fork_generation_gate in_first_child (os loopback None) marked 7 hello 16 1)
    as (Hfork & _ & _ & Hother & _); [reflexivity | exact Hin |].
  destruct (fork_generation_gate in_first_child (os loopback None)
              (fst (Overrides.fork (os loopback None) marked)) 7 hello 16 1)
    as (_ & _ & Hbuild & _); [reflexivity | exact Hin |].
  split; [apply Hother; [reflexivity | vm_compute; discriminate]|].
  split; [rewrite Hfork; reflexivity|].
  specialize (Hbuild eq_refl eq_refl). cbn [make_unique os handshake] in Hbuild.
  destruct Hbuild as (_ & _ & _ & Hw & _). exact Hw.
Defined.

(** ** The address selector *)

Lemma selected_only_by_address cfg sys server client :
  (Overrides.shouldServerIntercept cfg sys server client = true ->
     Overrides.isTcpSocket sys server true = true /\
     Overrides.connectedAddr sys client = Overrides.getRDMAReachable cfg) /\
  (Overrides.shouldClientIntercept cfg sys client = true ->
     Overrides.isTcpSocket sys client false = true /\
     Overrides.connectedAddr sys client = Overrides.getRDMAReachable cfg).
Proof.
  unfold Overrides.shouldServerIntercept, Overrides.shouldClientIntercept.
  split.
  - destruct (Overrides.isTcpSocket sys server true); cbn; [|discriminate].
    intros H. split; [reflexivity | apply Z.eqb_eq; exact H].
  - destruct (Overrides.isTcpSocket sys client false); cbn; [|discriminate].
    intros H. split; [reflexivity | apply Z.eqb_eq; exact H].
Qed.

Lemma isTcpSocket_sound sys s isServer :
  Overrides.isTcpSocket sys s isServer = true ->
  0 <= fst (real_getsockopt sys s) /\
  snd (real_getsockopt sys s) = SOCK_STREAM /\
  (if isServer then snd (getsockname sys s)
   else snd (fst (getpeername sys s))) = AF_INET.
Proof.
  unfold Overrides.isTcpSocket.
  destruct (real_getsockopt sys s) as [rc ty]. cbn [fst snd].
  destruct (Z.ltb_spec rc 0); [discriminate|].
  destruct isServer.
  - destruct (getsockname sys s) as [rc' fam]. cbn [snd].
    destruct (Z.ltb_spec rc' 0); [discriminate|].
    intros Hand. apply andb_true_iff in Hand as [H1 H2].
    apply Z.eqb_eq in H1, H2. auto.
  - destruct (Z.ltb_spec (fst (fst (getpeername sys s))) 0); [discriminate|].
    intros Hand. apply andb_true_iff in Hand as [H1 H2].
    apply Z.eqb_eq in H1, H2. auto.
Qed.

Lemma marked_only_if_selected cfg sys st s x :
  (x ∈ Overrides.rdmableSockets (fst (Overrides.accept cfg sys st s)) ->
     x ∈ Overrides.rdmableSockets st \/
     x = real_accept sys s /\
     Overrides.shouldServerIntercept cfg sys s x = true) /\
  (x ∈ Overrides.rdmableSockets (fst (Overrides.connect cfg sys st s)) ->
     x ∈ Overrides.rdmableSockets st \/
     x = s /\ Overrides.shouldClientIntercept cfg sys s = true).
Proof.
  split.
  - unfold Overrides.accept.
    destruct (_ <? 0); [auto|].
    destruct (Overrides.shouldServerIntercept cfg sys s (real_accept sys s)) eqn:Hs;
      cbn; [|auto].
    intros Hx. apply elem_of_union in Hx as [Hx|Hx]; [|auto].
    apply elem_of_singleton in Hx. subst x. auto.
  - unfold Overrides.connect.
    destruct (real_connect sys s) as [rc errno].
    match goal with |- context [if ?c then (st, ERROR) else _] => destruct c end;
      [auto|].
    destruct (Overrides.shouldClientIntercept cfg sys s) eqn:Hs; cbn; [|auto].
    intros Hx. apply elem_of_union in Hx as [Hx|Hx]; [|auto].
    apply elem_of_singleton in Hx. subst x. auto.
Qed.

(** What the selector does by design.  In the second shim version a
    descriptor gets marked by [accept] or [connect] only if [isTcpSocket]
    holds (an AF_INET stream socket; for [accept] the listening socket is
    the one tested) and the address left in [connectedAddr] equals
    [getRDMAReachable], which is the address parsed from USE_RDMA when the
    variable is set and parses. *)
Lemma selector_by_design cfg :
  (forall sys st s x,
     (x ∈ Overrides.rdmableSockets (fst (Overrides.accept cfg sys st s)) ->
        x ∈ Overrides.rdmableSockets st \/
        x = real_accept sys s /\
        Overrides.isTcpSocket sys s true = true /\
        Overrides.connectedAddr sys x = Overrides.getRDMAReachable cfg) /\
     (x ∈ Overrides.rdmableSockets (fst (Overrides.connect cfg sys st s)) ->
        x ∈ Overrides.rdmableSockets st \/
        x = s /\
        Overrides.isTcpSocket sys s false = true /\
        Overrides.connectedAddr sys s = Overrides.getRDMAReachable cfg)) /\
  (forall sys s isServer,
     Overrides.isTcpSocket sys s isServer = true ->
     snd (real_getsockopt sys s) = SOCK_STREAM /\
     (if isServer then snd (getsockname sys s)
      else snd (fst (getpeername sys s))) = AF_INET) /\
  (forall text a,
     Overrides.USE_RDMA cfg = Some text -> Overrides.inet_pton cfg text = Some a ->
     Overrides.getRDMAReachable cfg = a).
Proof.
  split; [|split].
  - intros sys st s x.
    destruct (marked_only_if_selected cfg sys st s x) as [Ha Hc].
    split.
    + intros Hx. destruct (Ha Hx) as [Hold|[-> Hsel]]; [auto|].
      right. split; [reflexivity|].
      apply (proj1 (selected_only_by_address cfg sys s _)). exact Hsel.
    + intros Hx. destruct (Hc Hx) as [Hold|[-> Hsel]]; [auto|].
      right. split; [reflexivity|].
      apply (proj2 (selected_only_by_address cfg sys s _)). exact Hsel.
  - intros sys s isServer Htcp.
    destruct (isTcpSocket_sound sys s isServer Htcp) as (_ & Hty & Hfam). auto.
  - intros text a Henv Hparse.
    unfold Overrides.getRDMAReachable, Overrides.getRdmaEnv.
    rewrite Henv, Hparse. reflexivity.
Qed.

(** C6, evaluated at the failing input.  USE_RDMA is not set, so that
    [getRDMAReachable] reports that interception is disabled and returns the
    zero-initialised address.  [accept] on a listening AF_INET stream socket
    yields descriptor 7, whose peer is gone already: the inner [getpeername]
    fails, its result is not looked at, and the local [connectedAddr] it was
    to fill reads 0.  The two addresses compare equal: descriptor 7 is
    marked and [accept] returns it.  The first [write] then does not call
    the real [write]: it runs the constructor of the ring, whose exception
    leaves the call when the handshake fails, and which registers a ring
    when the handshake succeeds. *)
Theorem unset_selector_still_intercepts :
  let sys := peer_gone (Some HandshakeFailed) in
  let st := fst (Overrides.accept nothing_set sys Overrides.initial 3) in
  Overrides.USE_RDMA nothing_set = None /\
  Overrides.getRDMAReachable nothing_set = 0 /\
  Overrides.isTcpSocket sys 3 true = true /\
  fst (fst (getpeername sys 7)) = -1 /\
  Overrides.accept nothing_set sys Overrides.initial 3 = (st, 7) /\
  7 ∈ Overrides.rdmableSockets st /\
  snd (Overrides.write nothing_set sys st 7 hello)
    = Throws (core_error HandshakeFailed) /\
  snd (Overrides.write nothing_set sys st 7 hello)
    <> Returns (real_write sys 7 hello) /\
  is_Some (Overrides.bridge
             (fst (Overrides.write nothing_set (peer_gone None) st 7 hello))
           !! 7).
Proof.
  cbv zeta.
  set (sys := peer_gone (Some HandshakeFailed)).
  set (st := fst (Overrides.accept nothing_set sys Overrides.initial 3)).
  assert (Hin : 7 ∈ Overrides.rdmableSockets st)
    by (apply (bool_decide_unpack _); vm_compute; exact I).
  assert (Hthrow : snd (Overrides.write nothing_set sys st 7 hello)
                   = Throws (core_error HandshakeFailed)).
  { rewrite write_builds by (reflexivity || exact Hin). reflexivity. }
  do 5 (split; [reflexivity|]).
  split; [exact Hin|]. split; [exact Hthrow|].
  split; [rewrite Hthrow; discriminate|].
  rewrite write_builds by (reflexivity || exact Hin).
  cbn [make_unique peer_gone os handshake].
  erewrite write_bridged by (cbn; apply lookup_insert_eq).
  cbn [fst Overrides.with_bridge Overrides.bridge].
  eexists. apply lookup_insert_eq.
Qed.

(** ** [poll] *)

Lemma classify_counts (b : gmap Z RDMAMessageBuffer) (index : nat)
    (fds : list pollfd) :
  existsb (Overrides.has_ring b) fds
    = negb (length (fst (Overrides.classify b index fds)) =? 0)%nat /\
  existsb (fun p => negb (Overrides.has_ring b p)) fds
    = negb (length (snd (Overrides.classify b index fds)) =? 0)%nat.
Proof.
  revert index. induction fds as [|p fds IH]; intros index; [split; reflexivity|].
  cbn [Overrides.classify existsb]. specialize (IH (S index)).
  destruct (Overrides.classify b (S index) fds) as [rdma_fds normal_fds].
  cbn [fst snd] in IH. destruct IH as [IH1 IH2].
  unfold Overrides.has_ring at 1 3.
  destruct (b !! fd p); cbn; rewrite ?IH1, ?IH2; split; reflexivity.
Qed.

Lemma classify_all_rings (b : gmap Z RDMAMessageBuffer) (index : nat)
    (fds : list pollfd) :
  Forall (fun p => Overrides.has_ring b p = true) fds ->
  Overrides.classify b index fds = (seq index (length fds), []).
Proof.
  revert index. induction fds as [|p fds IH]; intros index Hall; [reflexivity|].
  inversion Hall as [|? ? Hp Hrest]; subst.
  cbn [Overrides.classify length seq]. rewrite (IH (S index) Hrest).
  unfold Overrides.has_ring in Hp. destruct (b !! fd p); [reflexivity|discriminate].
Qed.

Lemma revents_cleared (fds : list pollfd) :
  Forall (fun p => revents p = 0) (map (set_revents 0) fds).
Proof. apply Forall_map. apply Forall_true. intros p. reflexivity. Qed.

(** C8 (amended).  When [poll] returns, every entry's [revents] is 0, also
    when the returned count is positive, unless the array mixes descriptors
    with and without ring: then [poll] returns [ERROR] and leaves the array
    as the caller passed it. *)
Theorem poll_clears_revents fuel sys st fds timeout event_count fds' :
  Overrides.poll fuel sys st fds timeout = Some (event_count, fds') ->
  if Overrides.mixed (Overrides.bridge st) fds
  then event_count = ERROR /\ fds' = fds
  else Forall (fun p => revents p = 0) fds'.
Proof.
  unfold Overrides.poll, Overrides.mixed.
  destruct (classify_counts (Overrides.bridge st) 0 fds) as [Hr Hn].
  destruct fds as [|p0 fds0] eqn:Hfds.
  { cbn. intros [= <- <-]. constructor. }
  rewrite <- Hfds in *. 
  assert (Hlen : (length fds =? 0)%nat = false) by (rewrite Hfds; reflexivity).
  rewrite Hlen, Hr, Hn.
  destruct (Overrides.classify (Overrides.bridge st) 0 fds) as [rdma_fds normal_fds].
  cbn [fst snd].
  destruct (length rdma_fds =? 0)%nat; cbn [negb andb].
  - destruct (real_poll sys fds timeout) as [c stored].
    intros [= <- <-]. apply revents_cleared.
  - destruct (length normal_fds =? 0)%nat; cbn [negb].
    + destruct (Overrides.rdma_loop _ _ _ _ _ _ _ _) as [[fds1 c1]|]; [|discriminate].
      intros [= <- <-]. apply revents_cleared.
    + intros [= <- <-]. split; reflexivity.
Qed.

(** C8 (amended) for one descriptor with ring asking for POLLOUT: the
    count is 1 and [revents] is 0. *)
Lemma poll_clears_revents_witness :
  Overrides.poll 1 (os loopback None) one_ring [mkPollfd 7 POLLOUT 5] 100
    = Some (1, [mkPollfd 7 POLLOUT 0]) /\
  Forall (fun p => revents p = 0) [mkPollfd 7 POLLOUT 0].
Proof.
  assert (Hpoll :
    Overrides.poll 1 (os loopback None) one_ring [mkPollfd 7 POLLOUT 5] 100
      = Some (1, [mkPollfd 7 POLLOUT 0])) by (vm_compute; reflexivity).
  split; [exact Hpoll|].
  exact (poll_clears_revents 1 (os loopback None) one_ring
           [mkPollfd 7 POLLOUT 5] 100 1 [mkPollfd 7 POLLOUT 0] Hpoll).
Defined.

(** C8 (as stated) fails.  Descriptor 7 has a ring, descriptor 8 has none:
    [poll] returns [ERROR] and the [revents] fields keep the values 5 and 9
    the caller passed. *)
Lemma poll_mixed_keeps_revents :
  let fds := [mkPollfd 7 POLLIN 5; mkPollfd 8 POLLIN 9] in
  Overrides.poll 1 (os loopback None) one_ring fds 100 = Some (ERROR, fds) /\
  ~ Forall (fun p => revents p = 0) fds.
Proof.
  cbv zeta. split; [vm_compute; reflexivity|].
  intros Hall. inversion Hall as [|? ? H5 _]. discriminate H5.
Qed.

Lemma visit_counts has p event_count :
  event_count + (if Overrides.requests_out p then 1 else 0)
    <= snd (Overrides.visit has p event_count).
Proof.
  unfold Overrides.visit, Overrides.requests_out.
  destruct has; cbn.
  - destruct (Z.land (events p) POLLIN =? 0), (Z.land (events p) POLLOUT =? 0);
      cbn; lia.
  - destruct (Z.land (events p) POLLOUT =? 0); cbn; lia.
Qed.

Lemma visit_keeps_entry has p event_count :
  set_revents 0 (fst (Overrides.visit has p event_count)) = set_revents 0 p.
Proof. unfold Overrides.visit. destruct has; reflexivity. Qed.

Lemma count_requests_out_cons p rest :
  Overrides.count_requests_out (p :: rest)
    = if Overrides.requests_out p then Overrides.count_requests_out rest + 1
      else Overrides.count_requests_out rest.
Proof. reflexivity. Qed.

(** One pass over an array whose descriptors all have rings visits every
    entry once, in order: the entries keep descriptor and events, and each
    entry asking for POLLOUT adds one to the count. *)
Lemma full_loop_counts sys (b : gmap Z RDMAMessageBuffer) pass
    (rest pre : list pollfd) event_count :
  Forall (fun p => Overrides.has_ring b p = true) rest ->
  exists rest' c',
    Overrides.full_loop sys b pass (seq (length pre) (length rest))
      (pre ++ rest) event_count = (pre ++ rest', c') /\
    map (set_revents 0) rest' = map (set_revents 0) rest /\
    event_count + Overrides.count_requests_out rest <= c'.
Proof.
  revert pre event_count.
  induction rest as [|p rest IH]; intros pre event_count Hall.
  { exists [], event_count. cbn. repeat split; lia. }
  inversion Hall as [|? ? Hp Hrest]; subst.
  rewrite count_requests_out_cons.
  cbn [length seq Overrides.full_loop].
  rewrite list_lookup_middle by reflexivity.
  unfold Overrides.has_ring in Hp.
  destruct (b !! fd p) as [msgBuf|]; [|discriminate].
  pose proof (visit_counts
                (buffer_hasData (remote sys pass (fd p) msgBuf)) p event_count)
    as Hvisit.
  pose proof (visit_keeps_entry
                (buffer_hasData (remote sys pass (fd p) msgBuf)) p event_count)
    as Hkeep.
  destruct (Overrides.visit _ p event_count) as [p' c1].
  cbn [fst snd] in Hvisit, Hkeep.
  replace (<[length pre := p']> (pre ++ p :: rest)) with ((pre ++ [p']) ++ rest).
  2:{ rewrite <- app_assoc. cbn. symmetry.
      rewrite insert_app_r_alt by lia. rewrite Nat.sub_diag. reflexivity. }
  replace (S (length pre)) with (length (pre ++ [p']))
    by (rewrite length_app; cbn; lia).
  destruct (IH (pre ++ [p']) c1 Hrest) as (rest' & c' & Hloop & Hmap & Hcount).
  exists (p' :: rest'), c'. rewrite Hloop, <- app_assoc. cbn [app map].
  rewrite Hkeep, Hmap.
  repeat split. destruct (Overrides.requests_out p); lia.
Qed.

Lemma count_requests_out_positive (fds : list pollfd) :
  Exists (fun p => Z.land (events p) POLLOUT <> 0) fds ->
  0 < Overrides.count_requests_out fds.
Proof.
  assert (Hnn : forall l, 0 <= Overrides.count_requests_out l).
  { induction l as [|p l IHl]; [cbn; lia|].
    rewrite count_requests_out_cons. destruct (Overrides.requests_out p); lia. }
  induction 1 as [p rest Hp|p rest _ IH]; rewrite count_requests_out_cons.
  - unfold Overrides.requests_out.
    destruct (Z.eqb_spec (Z.land (events p) POLLOUT) 0); [contradiction|].
    cbn. specialize (Hnn rest). lia.
  - destruct (Overrides.requests_out p); lia.
Qed.

(** C10.  When every descriptor of the array has a ring and at least one
    entry asks for POLLOUT, [poll] returns after its first pass, whatever
    the rings hold, whatever the peer does and whatever the clock says: the
    count is that of the first pass, it is positive, and every entry asking
    for POLLOUT is counted. *)
Theorem poll_pollout_ready_at_once fuel sys st fds timeout :
  Forall (fun p => Overrides.has_ring (Overrides.bridge st) p = true) fds ->
  Exists (fun p => Z.land (events p) POLLOUT <> 0) fds ->
  exists event_count,
    Overrides.poll (S fuel) sys st fds timeout
      = Some (event_count, map (set_revents 0) fds) /\
    event_count
      = snd (Overrides.full_loop sys (Overrides.bridge st) 0
               (seq 0 (length fds)) fds 0) /\
    Overrides.count_requests_out fds <= event_count /\
    0 < event_count.
Proof.
  intros Hall Hout.
  pose proof (count_requests_out_positive fds Hout) as Hpos.
  destruct (full_loop_counts sys (Overrides.bridge st) 0 fds [] 0 Hall)
    as (fds1 & c1 & Hloop & Hmap & Hcount).
  cbn [length app] in Hloop.
  exists c1. rewrite Hloop. cbn [snd].
  split; [|split; [reflexivity | split; lia]].
  unfold Overrides.poll.
  destruct fds as [|p0 fds0] eqn:Hfds; [inversion Hout|].
  rewrite <- Hfds in *.
  assert (Hlen : (length fds =? 0)%nat = false) by (rewrite Hfds; reflexivity).
  rewrite Hlen, (classify_all_rings _ 0 fds Hall).
  rewrite length_seq, Hlen. cbn [length Nat.eqb].
  cbn [Overrides.rdma_loop]. rewrite Hloop.
  destruct (Z.ltb_spec 0 c1); [|lia].
  rewrite Hmap. reflexivity.
Qed.

(** C10 for one descriptor with ring asking for POLLOUT, infinite timeout. *)
Lemma poll_pollout_ready_at_once_witness :
  exists event_count,
    Overrides.poll 1 (os loopback None) one_ring [mkPollfd 7 POLLOUT 0] (-1)
      = Some (event_count, map (set_revents 0) [mkPollfd 7 POLLOUT 0]) /\
    event_count
      = snd (Overrides.full_loop (os loopback None) (Overrides.bridge one_ring) 0
               (seq 0 (length [mkPollfd 7 POLLOUT 0])) [mkPollfd 7 POLLOUT 0] 0) /\
    Overrides.count_requests_out [mkPollfd 7 POLLOUT 0] <= event_count /\
    0 < event_count.
Proof.
  apply (poll_pollout_ready_at_once 0 (os loopback None) one_ring
           [mkPollfd 7 POLLOUT 0] (-1)).
  - constructor; [vm_compute; reflexivity | constructor].
  - constructor. vm_compute. discriminate.
Defined.

(** * Further properties of the overrides *)

(** ** Rings are never given up *)

Lemma write_rec_keeps_rings depth cfg sys st sock source other :
  is_Some (Overrides.bridge st !! other) ->
  is_Some (Overrides.bridge
             (fst (Overrides.write_rec depth cfg sys st sock source)) !! other).
Proof.
  revert st. induction depth as [|depth IH]; intros st Hsome; cbn.
  - destruct (Overrides.bridge st !! sock) as [mb|] eqn:Hb.
    + destruct (buffer_send source mb) as [mb' []]; cbn;
        rewrite lookup_insert; case_decide; eauto.
    + destruct (Overrides.getForkGenIntercept cfg); [|exact Hsome].
      destruct (_ && _); [|exact Hsome].
      destruct (make_unique _ _ _); cbn; [exact Hsome|].
      rewrite lookup_insert; case_decide; eauto.
  - destruct (Overrides.bridge st !! sock) as [mb|] eqn:Hb.
    + destruct (buffer_send source mb) as [mb' []]; cbn;
        rewrite lookup_insert; case_decide; eauto.
    + destruct (Overrides.getForkGenIntercept cfg); [|exact Hsome].
      destruct (_ && _); [|exact Hsome].
      destruct (make_unique _ _ _); cbn; [exact Hsome|].
      apply IH. cbn. rewrite lookup_insert; case_decide; eauto.
Qed.

Lemma read_rec_keeps_rings depth cfg sys st sock n other :
  is_Some (Overrides.bridge st !! other) ->
  is_Some (Overrides.bridge
             (fst (fst (Overrides.read_rec depth cfg sys st sock n))) !! other).
Proof.
  revert st. induction depth as [|depth IH]; intros st Hsome; cbn.
  - destruct (Overrides.bridge st !! sock) as [mb|] eqn:Hb.
    + destruct (buffer_receive n mb) as [mb' []]; cbn;
        rewrite lookup_insert; case_decide; eauto.
    + destruct (Overrides.getForkGenIntercept cfg); [|exact Hsome].
      destruct (_ && _); [|destruct (real_read sys sock n); exact Hsome].
      destruct (make_unique _ _ _); cbn; [exact Hsome|].
      rewrite lookup_insert; case_decide; eauto.
  - destruct (Overrides.bridge st !! sock) as [mb|] eqn:Hb.
    + destruct (buffer_receive n mb) as [mb' []]; cbn;
        rewrite lookup_insert; case_decide; eauto.
    + destruct (Overrides.getForkGenIntercept cfg); [|exact Hsome].
      destruct (_ && _); [|destruct (real_read sys sock n); exact Hsome].
      destruct (make_unique _ _ _); cbn; [exact Hsome|].
      apply IH. cbn. rewrite lookup_insert; case_decide; eauto.
Qed.

(** X1.  In the second shim version no call gives up a ring: in every state
    a process can reach, a descriptor that has a ring still has one after
    any further call, [close] included. *)
Theorem rings_accumulate ok cfg sys c st other :
  Overrides.reachable ok cfg st ->
  is_Some (Overrides.bridge st !! other) ->
  is_Some (Overrides.bridge (Overrides.after cfg sys c st) !! other).
Proof.
  intros Hreach Hsome.
  pose proof (reachable_dontCloseRDMA ok cfg st Hreach) as Hd.
  destruct c; cbn [Overrides.after].
  - rewrite (proj1 (marking_builds_no_ring cfg sys st server_socket)). exact Hsome.
  - rewrite (proj2 (marking_builds_no_ring cfg sys st sock)). exact Hsome.
  - apply write_rec_keeps_rings. exact Hsome.
  - apply read_rec_keeps_rings. exact Hsome.
  - unfold Overrides.send. destruct (_ || _); [|exact Hsome].
    apply write_rec_keeps_rings. exact Hsome.
  - unfold Overrides.recv. destruct (_ || _).
    + apply read_rec_keeps_rings. exact Hsome.
    + destruct (real_recv _ _ _ _). exact Hsome.
  - unfold Overrides.close. rewrite Hd. exact Hsome.
  - exact Hsome.
Qed.

(** X1 for [close 7] after descriptor 7 got its ring. *)
Lemma rings_accumulate_witness :
  is_Some (Overrides.bridge
             (Overrides.after use_loopback (os loopback None)
                (Overrides.call_close 7) bridged) !! 7).
Proof.
  apply (rings_accumulate (fun _ => True) use_loopback (os loopback None)
           (Overrides.call_close 7) bridged 7).
  - exact bridged_reachable.
  - exact bridged_state.
Defined.

(** ** A descriptor number that comes back *)

(** X2.  A descriptor number that comes back keeps the ring of the closed
    connection: after [close], when [accept] returns the same number for a
    selected peer, the descriptor is marked again, the old ring is still
    registered, and [write] sends into that old ring (no new ring is built,
    the real [write] is not called). *)
Theorem reused_descriptor_keeps_old_ring ok cfg sys sys' sys'' st
    server_socket sock source mb :
  Overrides.reachable ok cfg st ->
  Overrides.bridge st !! sock = Some mb ->
  real_accept sys' server_socket = sock ->
  0 <= sock ->
  Overrides.shouldServerIntercept cfg sys' server_socket sock = true ->
  let closed := fst (Overrides.close sys st sock) in
  let again := Overrides.accept cfg sys' closed server_socket in
  snd again = sock /\
  sock ∈ Overrides.rdmableSockets (fst again) /\
  Overrides.bridge (fst again) !! sock = Some mb /\
  Overrides.write cfg sys'' (fst again) sock source =
    (Overrides.with_bridge (fst again)
       (<[sock := fst (buffer_send source mb)]> (Overrides.bridge (fst again))),
     match snd (buffer_send source mb) with
     | Sent => Returns (to_ssize (Z.of_nat (length source)))
     | SendBlocks => Blocks
     end).
Proof.
  intros Hreach Hb Hacc Hnn Hsel closed again.
  pose proof (reachable_dontCloseRDMA ok cfg st Hreach) as Hd.
  assert (Hclosed : closed = st).
  { unfold closed, Overrides.close. rewrite Hd. reflexivity. }
  assert (Hagain : again =
    (Overrides.with_rdmable st ({[sock]} ∪ Overrides.rdmableSockets st), sock)).
  { unfold again, Overrides.accept. rewrite Hclosed, Hacc, Hsel.
    destruct (Z.ltb_spec sock 0); [lia | reflexivity]. }
  rewrite Hagain. cbn [fst snd].
  split; [reflexivity|].
  split; [cbn; apply elem_of_union_l, elem_of_singleton; reflexivity|].
  split; [exact Hb|].
  apply write_bridged. exact Hb.
Qed.

(** X2 for descriptor 7, closed and accepted again. *)
Lemma reused_descriptor_keeps_old_ring_witness :
  exists mb,
    Overrides.bridge bridged !! 7 = Some mb /\
    let again :=
      Overrides.accept use_loopback (os loopback None)
        (fst (Overrides.close (os loopback None) bridged 7)) 3 in
    snd again = 7 /\
    7 ∈ Overrides.rdmableSockets (fst again) /\
    Overrides.bridge (fst again) !! 7 = Some mb.
Proof.
  destruct bridged_state as [mb Hmb]. exists mb. split; [exact Hmb|].
  destruct (reused_descriptor_keeps_old_ring (fun _ => True) use_loopback
              (os loopback None) (os loopback None) (os loopback None)
              bridged 3 7 hello mb)
    as (H1 & H2 & H3 & _);
    [exact bridged_reachable | exact Hmb | reflexivity | lia | reflexivity |].
  cbv zeta. auto.
Defined.

(** ** The first version *)

(** X3.  In the first shim version [close] returns what the real [close]
    returns and erases exactly the ring of its descriptor: afterwards
    [write] and [read] on that descriptor are the real calls, and the rings
    of all other descriptors are as before. *)
Theorem first_version_close_then_plain sys sys' sys''
    (bridge0 : gmap Z RDMAMessageBuffer) sock other source n :
  let closed := fst (SocketOverrides.close sys bridge0 sock) in
  snd (SocketOverrides.close sys bridge0 sock) = real_close sys sock /\
  SocketOverrides.write sys' closed sock source
    = (closed, Returns (real_write sys' sock source)) /\
  SocketOverrides.read sys'' closed sock n
    = (closed, Returns (fst (real_read sys'' sock n)),
       snd (real_read sys'' sock n)) /\
  (other <> sock -> closed !! other = bridge0 !! other).
Proof.
  cbv zeta. unfold SocketOverrides.close. cbn [fst snd].
  split; [reflexivity|].
  unfold SocketOverrides.write, SocketOverrides.read.
  rewrite lookup_delete_eq.
  split; [reflexivity|].
  split; [destruct (real_read sys'' sock n); reflexivity|].
  intros Hne. apply lookup_delete_ne. congruence.
Qed.

(** X4.  The first shim version never routes anything through a ring.
    [accept] and [connect] compare the value returned by [real::getsockopt],
    which is 0 or -1, with SOCK_STREAM, so that they never get to the
    constructor: after any sequence of calls the map of rings is empty,
    [accept] and [connect] return [SUCCESS] or [ERROR] without building
    anything, and [write] and [read] are the real calls. *)
Theorem first_version_never_bridges sys (bridge0 : gmap Z RDMAMessageBuffer)
    sock source n :
  SocketOverrides.reachable getsockopt_conforms bridge0 ->
  getsockopt_conforms sys ->
  bridge0 = ∅ /\
  fst (SocketOverrides.accept sys bridge0 sock) = bridge0 /\
  fst (SocketOverrides.connect sys bridge0 sock) = bridge0 /\
  (snd (SocketOverrides.accept sys bridge0 sock) = SUCCESS \/
   snd (SocketOverrides.accept sys bridge0 sock) = ERROR) /\
  (snd (SocketOverrides.connect sys bridge0 sock) = SUCCESS \/
   snd (SocketOverrides.connect sys bridge0 sock) = ERROR) /\
  SocketOverrides.write sys bridge0 sock source
    = (bridge0, Returns (real_write sys sock source)) /\
  SocketOverrides.read sys bridge0 sock n
    = (bridge0, Returns (fst (real_read sys sock n)),
       snd (real_read sys sock n)).
Proof.
  intros Hr Hok.
  pose proof (first_version_no_ring bridge0 Hr) as Hempty.
  pose proof (first_version_no_ring _
                (SocketOverrides.reachable_after _ sys
                   (SocketOverrides.call_accept sock) bridge0 Hr Hok)) as Ha.
  pose proof (first_version_no_ring _
                (SocketOverrides.reachable_after _ sys
                   (SocketOverrides.call_connect sock) bridge0 Hr Hok)) as Hc.
  cbn [SocketOverrides.after] in Ha, Hc.
  assert (Hty : forall s, (fst (real_getsockopt sys s) =? SOCK_STREAM) = false).
  { intros s. apply Z.eqb_neq. unfold SOCK_STREAM. destruct (Hok s); lia. }
  split; [exact Hempty|].
  split; [rewrite Ha, Hempty; reflexivity|].
  split; [rewrite Hc, Hempty; reflexivity|].
  split; [|split; [|split]].
  - unfold SocketOverrides.accept.
    destruct (_ <? 0); [right; reflexivity|].
    destruct (_ <? 0); [right; reflexivity|].
    destruct (real_getsockname sys sock) as [rc ss_family].
    destruct (_ <? 0); [right; reflexivity|].
    rewrite Hty. left. reflexivity.
  - unfold SocketOverrides.connect.
    destruct (_ =? ERROR); [right; reflexivity|].
    destruct (_ <? 0); [right; reflexivity|].
    destruct (getpeername sys sock) as [[rc ss_family] addr].
    destruct (_ <? 0); [right; reflexivity|].
    rewrite Hty. left. reflexivity.
  - subst bridge0. unfold SocketOverrides.write. rewrite lookup_empty. reflexivity.
  - subst bridge0. unfold SocketOverrides.read. rewrite lookup_empty.
    destruct (real_read sys sock n). reflexivity.
Qed.

Lemma os_getsockopt_conforms peer shake : getsockopt_conforms (os peer shake).
Proof. intros s. left. reflexivity. Qed.

(** X4 after [accept] on a listening AF_INET stream socket and [connect]:
    there is no ring, and [write] is the real call. *)
Lemma first_version_never_bridges_witness :
  let sys := os loopback None in
  let bridge0 :=
    fst (SocketOverrides.connect sys (fst (SocketOverrides.accept sys ∅ 3)) 5) in
  bridge0 = ∅ /\
  SocketOverrides.write sys bridge0 7 hello = (bridge0, Returns 5).
Proof.
  cbv zeta.
  destruct (first_version_never_bridges (os loopback None)
              (fst (SocketOverrides.connect (os loopback None)
                      (fst (SocketOverrides.accept (os loopback None) ∅ 3)) 5))
              7 hello 0) as (Hempty & _ & _ & _ & _ & Hw & _).
  - apply (SocketOverrides.reachable_after _ (os loopback None)
             (SocketOverrides.call_connect 5));
      [|apply os_getsockopt_conforms].
    apply (SocketOverrides.reachable_after _ (os loopback None)
             (SocketOverrides.call_accept 3));
      [|apply os_getsockopt_conforms].
    apply SocketOverrides.reachable_initial.
  - apply os_getsockopt_conforms.
  - split; [exact Hempty | exact Hw].
Defined.

(** ** The calls that end in [write] and [read] *)

(** X5.  With a single buffer, no address and flags 0 or MSG_NOSIGNAL,
    [sendmsg], [sendto] and [send] are exactly [write] on that buffer, in
    both shim versions. *)
Theorem sendmsg_single_buffer_is_write cfg sys fw st sock buffer namelen flags :
  Overrides.plain_flags flags ->
  Overrides.sendmsg cfg sys fw st sock (mkMsghdr None namelen [buffer]) flags
    = Overrides.write cfg sys st sock buffer /\
  Overrides.sendto cfg sys fw st sock buffer flags None
    = Overrides.write cfg sys st sock buffer /\
  Overrides.send cfg sys st sock buffer flags
    = Overrides.write cfg sys st sock buffer /\
  SocketOverrides.sendmsg sys fw (Overrides.bridge st) sock
      (mkMsghdr None namelen [buffer]) flags
    = SocketOverrides.write sys (Overrides.bridge st) sock buffer.
Proof.
  intros Hflags. apply plain_flags_test in Hflags.
  unfold Overrides.sendmsg, Overrides.sendto, Overrides.send,
    SocketOverrides.sendmsg, SocketOverrides.sendto, SocketOverrides.send.
  cbn [msg_iov msg_name]. rewrite Hflags. repeat split.
Qed.

(** X5 for "hello" and MSG_NOSIGNAL. *)
Lemma sendmsg_single_buffer_is_write_witness :
  Overrides.sendmsg use_loopback (os loopback None) forwarded one_ring 7
      (mkMsghdr None 0 [hello]) MSG_NOSIGNAL
    = Overrides.write use_loopback (os loopback None) one_ring 7 hello.
Proof.
  apply (sendmsg_single_buffer_is_write use_loopback (os loopback None)
           forwarded one_ring 7 hello 0 MSG_NOSIGNAL).
  right. reflexivity.
Defined.

(** X6.  With a single buffer, no address and flags 0 or MSG_NOSIGNAL,
    [recvmsg] is exactly [read] with the length of that buffer, in both shim
    versions. *)
Theorem recvmsg_single_buffer_is_read cfg sys fw st sock buffer namelen flags :
  Overrides.plain_flags flags ->
  Overrides.recvmsg cfg sys fw st sock (mkMsghdr None namelen [buffer]) flags
    = (let '(st', r, bytes) :=
         Overrides.read cfg sys st sock (Z.of_nat (length buffer)) in
       (st', r, [bytes])) /\
  SocketOverrides.recvmsg sys fw (Overrides.bridge st) sock
      (mkMsghdr None namelen [buffer]) flags
    = (let '(b, r, bytes) :=
         SocketOverrides.read sys (Overrides.bridge st) sock
           (Z.of_nat (length buffer)) in
       (b, r, [bytes])).
Proof.
  intros Hflags. apply plain_flags_test in Hflags.
  unfold Overrides.recvmsg, Overrides.recvfrom, Overrides.recv,
    SocketOverrides.recvmsg, SocketOverrides.recvfrom, SocketOverrides.recv.
  cbn [msg_iov msg_name]. rewrite Hflags. split; reflexivity.
Qed.

(** X6 for a buffer of five bytes and flags 0. *)
Lemma recvmsg_single_buffer_is_read_witness :
  Overrides.recvmsg use_loopback (os loopback None) forwarded one_ring 7
      (mkMsghdr None 0 [hello]) 0
    = (let '(st', r, bytes) :=
         Overrides.read use_loopback (os loopback None) one_ring 7 5 in
       (st', r, [bytes])).
Proof.
  apply (recvmsg_single_buffer_is_read use_loopback (os loopback None)
           forwarded one_ring 7 hello 0 0).
  left. reflexivity.
Defined.

(** X7.  With several buffers (or none), with an address, or with other
    flags, [sendmsg] and [recvmsg] of the second shim version return what
    the real call they are routed to returns ([real::sendmsg] and
    [real::recvmsg] unless there is exactly one buffer, else [real::sendto]
    and [real::recvfrom] when there is an address, else [real::send] and
    [real::recv]), and leave the globals, rings included, as they are, also
    for a descriptor that has a ring. *)
Theorem sendmsg_bypasses_ring cfg sys fw st sock msg flags :
  (length (msg_iov msg) <> 1%nat \/ is_Some (msg_name msg)
   \/ ~ Overrides.plain_flags flags) ->
  Overrides.sendmsg cfg sys fw st sock msg flags
    = (st,
       Returns
         match msg_iov msg, msg_name msg with
         | [buffer], Some addr => real_sendto fw sock buffer flags addr
         | [buffer], None => real_send sys sock buffer flags
         | _, _ => real_sendmsg fw sock msg flags
         end) /\
  Overrides.recvmsg cfg sys fw st sock msg flags
    = match msg_iov msg, msg_name msg with
      | [buffer], Some _ =>
          let answer :=
            real_recvfrom fw sock (Z.of_nat (length buffer)) flags in
          (st, Returns (fst answer), [snd answer])
      | [buffer], None =>
          let answer := real_recv sys sock (Z.of_nat (length buffer)) flags in
          (st, Returns (fst answer), [snd answer])
      | _, _ =>
          let answer := real_recvmsg fw sock msg flags in
          (st, Returns (fst answer), snd answer)
      end.
Proof.
  intros Hwhy.
  assert (Htest : ~ Overrides.plain_flags flags ->
                  (flags =? 0) || (flags =? MSG_NOSIGNAL) = false).
  { intros Hno. destruct (Z.eqb_spec flags 0) as [->|_];
      [contradiction Hno; left; reflexivity|].
    destruct (Z.eqb_spec flags MSG_NOSIGNAL) as [->|_];
      [contradiction Hno; right; reflexivity | reflexivity]. }
  unfold Overrides.sendmsg, Overrides.recvmsg, Overrides.sendto,
    Overrides.recvfrom, Overrides.send, Overrides.recv.
  destruct (msg_iov msg) as [|buffer [|second rest]] eqn:Hiov.
  - destruct (msg_name msg); destruct (real_recvmsg fw sock msg flags);
      split; reflexivity.
  - destruct (msg_name msg) as [addr|] eqn:Hname.
    + destruct (real_recvfrom fw sock _ flags). split; reflexivity.
    + destruct Hwhy as [Hlen|[[a Ha]|Hflags]];
        [cbn in Hlen; contradiction | discriminate |].
      rewrite (Htest Hflags). destruct (real_recv sys sock _ flags).
      split; reflexivity.
  - destruct (msg_name msg); destruct (real_recvmsg fw sock msg flags);
      split; reflexivity.
Qed.

(** X7 for two buffers on descriptor 7, which has a ring: the call is the
    real [sendmsg], which answers 1. *)
Lemma sendmsg_bypasses_ring_witness :
  Overrides.sendmsg use_loopback (os loopback None) forwarded one_ring 7
    (mkMsghdr None 0 [hello; hello]) 0 = (one_ring, Returns 1).
Proof.
  apply (sendmsg_bypasses_ring use_loopback (os loopback None) forwarded
           one_ring 7 (mkMsghdr None 0 [hello; hello]) 0).
  left. cbn. lia.
Defined.

(** ** [fcntl] and [setsockopt] *)

(** X8.  [fcntl] answers [SUCCESS] for a descriptor with ring, whatever the
    command.  Without ring it answers what the real call answers for
    F_SETFL, F_SETFD, F_GETFL and F_GETFD (the flags read are returned
    unchanged: the masking of O_NONBLOCK in [fcntl_get] is never reached),
    and [ERROR] for every other command. *)
Theorem fcntl_outcomes fw st sock command argument :
  Overrides.fcntl fw st sock command argument =
    match Overrides.bridge st !! sock with
    | Some _ => SUCCESS
    | None =>
        if (command =? F_SETFL) || (command =? F_SETFD)
        then real_fcntl_set_flags fw sock command argument
        else if (command =? F_GETFL) || (command =? F_GETFD)
        then real_fcntl_get_flags fw sock command
        else ERROR
    end.
Proof.
  unfold Overrides.fcntl, Overrides.fcntl_set, Overrides.fcntl_get.
  destruct (Overrides.bridge st !! sock); reflexivity.
Qed.

(** ** [select] *)

Lemma count_rdma_sockets_from (b : gmap Z RDMAMessageBuffer)
    (sets : DescriptorSets) (l : list Z) (acc : Z) :
  let step := fun rdma_count sock =>
    if Overrides.is_in_any_set sock sets then
      match b !! sock with
      | Some _ => rdma_count + 1
      | None => rdma_count
      end
    else rdma_count in
  acc <= foldl step acc l /\
  (foldl step acc l = acc <->
   Forall (fun sock => Overrides.is_in_any_set sock sets = true ->
                       b !! sock = None) l).
Proof.
  cbv zeta. revert acc. induction l as [|sock l IH]; intros acc.
  { cbn. split; [lia|]. split; [constructor | reflexivity]. }
  cbn [foldl].
  destruct (Overrides.is_in_any_set sock sets) eqn:Hin.
  - destruct (b !! sock) as [mb|] eqn:Hb.
    + destruct (IH (acc + 1)) as [Hle _]. split; [lia|]. split.
      * intros Heq. lia.
      * intros Hall. inversion Hall as [|? ? Hhd _]. specialize (Hhd Hin).
        congruence.
    + destruct (IH acc) as [Hle Hiff]. split; [exact Hle|].
      rewrite Hiff. split.
      * intros Hall. constructor; [intros _; exact Hb | exact Hall].
      * intros Hall. inversion Hall. assumption.
  - destruct (IH acc) as [Hle Hiff]. split; [exact Hle|].
    rewrite Hiff. split.
    + intros Hall. constructor; [intros Habs; congruence | exact Hall].
    + intros Hall. inversion Hall. assumption.
Qed.

Lemma elem_of_descriptors_below (n sock : Z) :
  sock ∈ Overrides.descriptors_below n <-> 0 <= sock < n.
Proof.
  unfold Overrides.descriptors_below. rewrite list_elem_of_fmap. split.
  - intros (k & -> & Hk). apply list_elem_of_In, in_seq in Hk. lia.
  - intros Hs. exists (Z.to_nat sock). split; [lia|].
    apply list_elem_of_In, in_seq. lia.
Qed.

Lemma count_rdma_sockets_zero (b : gmap Z RDMAMessageBuffer) nfds sets :
  Overrides.count_rdma_sockets b nfds sets = 0 <->
  (forall sock, 0 <= sock < nfds ->
     Overrides.is_in_any_set sock sets = true -> b !! sock = None).
Proof.
  unfold Overrides.count_rdma_sockets.
  rewrite (proj2 (count_rdma_sockets_from b sets _ 0)).
  rewrite Forall_forall. split.
  - intros H sock Hs. apply H, elem_of_descriptors_below, Hs.
  - intros H sock Hs. apply H, elem_of_descriptors_below, Hs.
Qed.

(** X9.  For [nfds] that is not negative: when no descriptor below [nfds]
    that is in one of the three sets has a ring, [select] is the real
    [select]. *)
Theorem select_real_without_ring fuel sys fw st nfds sets timeout :
  0 <= nfds ->
  (forall sock, 0 <= sock < nfds ->
     Overrides.is_in_any_set sock sets = true ->
     Overrides.bridge st !! sock = None) ->
  Overrides.select fuel sys fw st nfds sets timeout
    = Some (real_select fw nfds sets timeout).
Proof.
  intros _ Hnone. unfold Overrides.select.
  rewrite (proj2 (count_rdma_sockets_zero _ nfds sets) Hnone). reflexivity.
Qed.

Lemma poll_outcome fuel sys st fds timeout event_count fds' :
  Overrides.poll fuel sys st fds timeout = Some (event_count, fds') ->
  event_count = ERROR \/ Forall (fun p => revents p = 0) fds'.
Proof.
  unfold Overrides.poll.
  destruct (length fds =? 0)%nat eqn:Hlen.
  { intros [= <- <-]. right. destruct fds; [constructor | discriminate]. }
  destruct (Overrides.classify (Overrides.bridge st) 0 fds) as [rdma_fds normal_fds].
  destruct (length rdma_fds =? 0)%nat.
  - destruct (real_poll sys fds timeout) as [c stored].
    intros [= <- <-]. right. apply revents_cleared.
  - destruct (length normal_fds =? 0)%nat.
    + destruct (Overrides.rdma_loop _ _ _ _ _ _ _ _) as [[fds1 c1]|]; [|discriminate].
      intros [= <- <-]. right. apply revents_cleared.
    + intros [= <- <-]. left. reflexivity.
Qed.

Lemma poll_to_select_from (fds : list pollfd) (sets : DescriptorSets)
    (cnt : Z) :
  Forall (fun p => revents p = 0) fds ->
  foldl Overrides.poll_to_select_step (sets, cnt) fds = (sets, cnt).
Proof.
  induction fds as [|p fds IH]; intros Hall; [reflexivity|].
  inversion Hall as [|? ? Hp Hrest]; subst.
  cbn [foldl]. unfold Overrides.poll_to_select_step at 2.
  rewrite Hp, !Z.land_0_l. cbn [Z.eqb negb].
  destruct sets as [[r|] [w|] [e|]]; cbn; apply IH; exact Hrest.
Qed.

Lemma poll_to_select_nothing (fds : list pollfd) (sets : DescriptorSets) :
  Forall (fun p => revents p = 0) fds ->
  Overrides.poll_to_select fds sets = (sets, 0).
Proof. apply poll_to_select_from. Qed.

(** X10.  When some descriptor below [nfds] that is in one of the sets has
    a ring, [select] never reports a ready descriptor: whenever it returns,
    the value is 0 or negative and every set that was given is empty
    ([poll] has cleared the [revents] that [poll_to_select] looks at). *)
Theorem select_never_reports_ready fuel sys fw st nfds sets timeout sock
    r sets' :
  0 <= sock < nfds ->
  Overrides.is_in_any_set sock sets = true ->
  is_Some (Overrides.bridge st !! sock) ->
  Overrides.select fuel sys fw st nfds sets timeout = Some (r, sets') ->
  r <= 0 /\ sets' = zero_sets sets.
Proof.
  intros Hs Hin [mb Hmb] Hsel. unfold Overrides.select in Hsel.
  destruct (Z.eqb_spec (Overrides.count_rdma_sockets (Overrides.bridge st) nfds sets) 0)
    as [Hzero|_].
  { rewrite (proj1 (count_rdma_sockets_zero _ nfds sets) Hzero sock Hs Hin) in Hmb.
    discriminate. }
  unfold Overrides.forward_to_poll in Hsel.
  destruct (Overrides.select_to_poll nfds sets) as [pollfds nfds'].
  destruct (Overrides.poll fuel sys st (take nfds' pollfds) _)
    as [[number_of_events polled]|] eqn:Hpoll; [|discriminate].
  destruct (Z.ltb_spec 0 number_of_events) as [Hpos|Hnonpos].
  - destruct (poll_outcome _ _ _ _ _ _ _ Hpoll) as [->|Hzeroed];
      [unfold ERROR in Hpos; lia|].
    rewrite (poll_to_select_nothing polled _ Hzeroed) in Hsel.
    injection Hsel as <- <-. split; [lia | reflexivity].
  - injection Hsel as <- <-. split; [lia | reflexivity].
Qed.

(** X10 for descriptor 7, which has a ring and would be writable. *)
Lemma select_never_reports_ready_witness :
  let sets := mkSets (Some {[7]}) (Some {[7]}) None in
  Overrides.select 1 (os loopback None) forwarded one_ring 8 sets
    (Some (mkTimeval 1 0)) = Some (0, zero_sets sets) /\
  0 <= 0 /\ zero_sets sets = zero_sets sets.
Proof.
  cbv zeta.
  assert (Hsel :
    Overrides.select 1 (os loopback None) forwarded one_ring 8
      (mkSets (Some {[7]}) (Some {[7]}) None) (Some (mkTimeval 1 0))
    = Some (0, zero_sets (mkSets (Some {[7]}) (Some {[7]}) None)))
    by (vm_compute; reflexivity).
  split; [exact Hsel|].
  apply (select_never_reports_ready 1 (os loopback None) forwarded one_ring 8
           (mkSets (Some {[7]}) (Some {[7]}) None) (Some (mkTimeval 1 0)) 7
           0 (zero_sets (mkSets (Some {[7]}) (Some {[7]}) None))).
  - lia.
  - vm_compute. reflexivity.
  - vm_compute. eexists. reflexivity.
  - exact Hsel.
Defined.

(** X13.  For a non-negative [timeval] whose milliseconds fit an [int],
    [timeval_to_milliseconds] rounds down to whole milliseconds: it loses
    less than one millisecond, so a timeout below one millisecond becomes
    0. *)
Theorem timeval_to_milliseconds_rounds_down (time : timeval) :
  0 <= tv_sec time -> 0 <= tv_usec time ->
  tv_sec time * 1000 + tv_usec time / 1000 < 2 ^ 31 ->
  let ms := Overrides.timeval_to_milliseconds time in
  0 <= ms /\
  1000 * ms <= tv_sec time * 1000000 + tv_usec time < 1000 * (ms + 1).
Proof.
  intros Hsec Husec Hfit. cbv zeta.
  unfold Overrides.timeval_to_milliseconds, to_int.
  rewrite Z.quot_div_nonneg by lia.
  pose proof (Z.div_mod (tv_usec time) 1000 ltac:(lia)) as Hdm.
  pose proof (Z.mod_pos_bound (tv_usec time) 1000 ltac:(lia)) as Hmod.
  assert (0 <= tv_usec time / 1000) by (apply Z.div_pos; lia).
  rewrite Z.mod_small by lia.
  destruct (Z.ltb_spec (tv_sec time * 1000 + tv_usec time / 1000) (2 ^ 31)); lia.
Qed.

(** X13 for 2 s and 500999 microseconds: 2500 ms. *)
Lemma timeval_to_milliseconds_rounds_down_witness :
  let ms := Overrides.timeval_to_milliseconds (mkTimeval 2 500999) in
  0 <= ms /\ 1000 * ms <= 2 * 1000000 + 500999 < 1000 * (ms + 1).
Proof.
  apply (timeval_to_milliseconds_rounds_down (mkTimeval 2 500999)).
  - cbn [tv_sec]. lia.
  - cbn [tv_usec]. lia.
  - vm_compute. reflexivity.
Defined.

(** ** [select_to_poll] *)

Lemma select_to_poll_step_at (sets : DescriptorSets) (E R : list pollfd)
    (p0 : pollfd) (sock : Z) :
  exists p3,
    Overrides.select_to_poll_step sets (E ++ p0 :: R, length E) sock
      = (E ++ p3 :: R, if fd p3 =? 0 then length E else S (length E)) /\
    (Overrides.is_in_any_set sock sets = false -> p3 = p0) /\
    (Overrides.is_in_any_set sock sets = true ->
       fd p3 = sock /\
       (p0 = mkPollfd 0 0 0 -> p3 = Overrides.entry_for sets sock)).
Proof.
  unfold Overrides.select_to_poll_step, Overrides.is_in_any_set,
    Overrides.entry_for.
  rewrite list_lookup_middle by reflexivity. cbn [default].
  eexists. split.
  - rewrite insert_app_r_alt by lia. rewrite Nat.sub_diag. cbn [insert].
    reflexivity.
  - destruct (Overrides.fd_is_set sock (readfds sets)),
             (Overrides.fd_is_set sock (writefds sets)),
             (Overrides.fd_is_set sock (errorfds sets));
      cbn; split; try discriminate; try (intros _; destruct p0; reflexivity);
      intros _; (split; [reflexivity|]); intros ->; reflexivity.
Qed.

Lemma filter_length_bound {A} (f : A -> bool) (l : list A) :
  (length (List.filter f l) <= length l)%nat.
Proof.
  induction l as [|x l IH]; cbn; [lia|]. destruct (f x); cbn; lia.
Qed.

Lemma select_to_poll_prefix (sets : DescriptorSets) (n k : nat) :
  (k <= n)%nat ->
  let prefix := map Z.of_nat (seq 0 k) in
  exists E R,
    foldl (Overrides.select_to_poll_step sets)
          (replicate n (mkPollfd 0 0 0), 0%nat) prefix
      = (E ++ R, length E) /\
    (length E + length R = n)%nat /\
    map fd E
      = List.filter (fun s => Overrides.is_in_any_set s sets && negb (s =? 0))
                    prefix /\
    Forall (fun p => fd p = 0) R /\
    (Overrides.is_in_any_set 0 sets = false ->
       E = map (Overrides.entry_for sets)
             (List.filter (fun s => Overrides.is_in_any_set s sets) prefix) /\
       R = replicate (n - length E) (mkPollfd 0 0 0)).
Proof.
  cbv zeta. induction k as [|k IH]; intros Hk.
  { exists [], (replicate n (mkPollfd 0 0 0)). cbn.
    rewrite length_replicate, Nat.sub_0_r.
    repeat split; auto. apply Forall_replicate. reflexivity. }
  destruct (IH ltac:(lia)) as (E & R & Hfold & Hlen & Hfd & Hzero & Hclean).
  rewrite seq_S, map_app, foldl_app, Hfold. cbn [map foldl Nat.add].
  rewrite !List.filter_app. cbn [List.filter].
  assert (HlenE : (length E <= k)%nat).
  { rewrite <- (length_map fd E), Hfd.
    etransitivity; [apply filter_length_bound|].
    rewrite length_map, length_seq. lia. }
  destruct R as [|p0 R]; [cbn in Hlen; lia|].
  pose proof (Forall_inv Hzero) as Hp0. cbn beta in Hp0.
  pose proof (Forall_inv_tail Hzero) as HzeroR.
  destruct (select_to_poll_step_at sets E R p0 (Z.of_nat k))
    as (p3 & Hstep & Hout & Hin).
  rewrite Hstep.
  destruct (Overrides.is_in_any_set (Z.of_nat k) sets) eqn:Hany.
  - destruct (Hin eq_refl) as [Hfd3 Hentry].
    destruct (Z.eqb_spec (Z.of_nat k) 0) as [Hk0|Hk0].
    + (* descriptor 0: the entry is filled but the index stays *)
      rewrite Hfd3. rewrite (proj2 (Z.eqb_eq _ _) Hk0). cbn [andb negb].
      exists E, (p3 :: R). rewrite !app_nil_r.
      split; [reflexivity|]. split; [exact Hlen|]. split; [exact Hfd|].
      split; [constructor; [lia | exact HzeroR]|].
      intros Hclean0. rewrite Hk0 in Hany. congruence.
    + rewrite Hfd3. rewrite (proj2 (Z.eqb_neq _ _) Hk0). cbn [andb negb].
      exists (E ++ [p3]), R. rewrite <- app_assoc. cbn [app].
      rewrite length_app. cbn [length]. rewrite Nat.add_1_r.
      split; [reflexivity|]. split; [cbn in Hlen; lia|].
      split; [rewrite map_app, Hfd; cbn [map]; rewrite Hfd3; reflexivity|].
      split; [exact HzeroR|].
      intros Hclean0. destruct (Hclean Hclean0) as [HE HR].
      assert (Hp0z : p0 = mkPollfd 0 0 0).
      { assert (Hl : (p0 :: R) !! 0%nat = Some p0) by reflexivity.
        rewrite HR in Hl. apply lookup_replicate in Hl as [-> _]. reflexivity. }
      split.
      * rewrite map_app, <- HE. cbn [map]. rewrite (Hentry Hp0z). reflexivity.
      * assert (Hr : replicate (n - length E) (mkPollfd 0 0 0)
                     = mkPollfd 0 0 0 :: replicate (n - S (length E)) (mkPollfd 0 0 0)).
        { replace (n - length E)%nat with (S (n - S (length E))) by (cbn in Hlen; lia).
          reflexivity. }
        rewrite Hr in HR. injection HR as _ HR. exact HR.
  - rewrite (Hout eq_refl), Hp0. cbn [Z.eqb andb]. rewrite !app_nil_r.
    exists E, (p0 :: R).
    split; [reflexivity|]. split; [exact Hlen|]. split; [exact Hfd|].
    split; [exact Hzero|]. exact Hclean.
Qed.

(** X11.  [select_to_poll] never builds an entry for descriptor 0: the
    entries handed to [poll] are, in ascending order, the non-zero
    descriptors below [nfds] that are in one of the sets. *)
Theorem select_to_poll_skips_descriptor_zero nfds sets :
  0 <= nfds ->
  let '(pollfds, nfds') := Overrides.select_to_poll nfds sets in
  length pollfds = Z.to_nat nfds /\
  map fd (take nfds' pollfds)
    = List.filter (fun s => Overrides.is_in_any_set s sets && negb (s =? 0))
                  (Overrides.descriptors_below nfds) /\
  Forall (fun p => fd p <> 0) (take nfds' pollfds).
Proof.
  intros Hn. unfold Overrides.select_to_poll, Overrides.descriptors_below.
  destruct (select_to_poll_prefix sets (Z.to_nat nfds) (Z.to_nat nfds) (le_n _))
    as (E & R & -> & Hlen & Hfd & _ & _).
  rewrite length_app, take_app_length.
  split; [exact Hlen|]. split; [exact Hfd|].
  apply Forall_forall. intros p Hp.
  assert (Hin : fd p ∈ map fd E) by (apply list_elem_of_fmap; eauto).
  rewrite Hfd in Hin. apply list_elem_of_In, List.filter_In in Hin as [_ Hsel].
  apply andb_true_iff in Hsel as [_ Hnz]. apply negb_true_iff, Z.eqb_neq in Hnz.
  exact Hnz.
Qed.

(** X12.  When descriptor 0 is in none of the sets, [select_to_poll] builds
    for each descriptor below [nfds] that is in a set, in ascending order,
    the entry with POLLIN if it is in [readfds] and POLLOUT if it is in
    [writefds]; the rest of the array is zero, and the new [nfds] is the
    number of entries. *)
Theorem select_to_poll_entries nfds sets :
  0 <= nfds ->
  Overrides.is_in_any_set 0 sets = false ->
  let selected :=
    List.filter (fun s => Overrides.is_in_any_set s sets)
                (Overrides.descriptors_below nfds) in
  Overrides.select_to_poll nfds sets
    = (map (Overrides.entry_for sets) selected
         ++ replicate (Z.to_nat nfds - length selected) (mkPollfd 0 0 0),
       length selected).
Proof.
  intros Hn Hclean. cbv zeta.
  unfold Overrides.select_to_poll, Overrides.descriptors_below.
  destruct (select_to_poll_prefix sets (Z.to_nat nfds) (Z.to_nat nfds) (le_n _))
    as (E & R & -> & Hlen & _ & _ & Hshape).
  destruct (Hshape Hclean) as [HE HR].
  rewrite HR. rewrite HE at 1 2 3. rewrite !length_map. reflexivity.
Qed.

(** ** What [poll] counts, and when it returns *)

Lemma count_events_cons sys (b : gmap Z RDMAMessageBuffer) pass p rest :
  Overrides.count_events sys b pass (p :: rest)
    = Overrides.count_events sys b pass rest
      + (if Overrides.ready_in sys b pass p then 1 else 0)
      + (if Overrides.requests_out p then 1 else 0).
Proof. reflexivity. Qed.

Lemma visit_exact has p event_count :
  snd (Overrides.visit has p event_count)
    = event_count
      + (if has && negb (Z.land (events p) POLLIN =? 0) then 1 else 0)
      + (if Overrides.requests_out p then 1 else 0).
Proof.
  unfold Overrides.visit, Overrides.requests_out.
  destruct has; cbn.
  - destruct (Z.land (events p) POLLIN =? 0), (Z.land (events p) POLLOUT =? 0);
      cbn; lia.
  - destruct (Z.land (events p) POLLOUT =? 0); cbn; lia.
Qed.

Lemma full_loop_exact sys (b : gmap Z RDMAMessageBuffer) pass
    (rest pre : list pollfd) event_count :
  Forall (fun p => Overrides.has_ring b p = true) rest ->
  exists rest',
    Overrides.full_loop sys b pass (seq (length pre) (length rest))
      (pre ++ rest) event_count
      = (pre ++ rest', event_count + Overrides.count_events sys b pass rest) /\
    map (set_revents 0) rest' = map (set_revents 0) rest.
Proof.
  revert pre event_count.
  induction rest as [|p rest IH]; intros pre event_count Hall.
  { exists []. cbn. rewrite Z.add_0_r. split; reflexivity. }
  pose proof (Forall_inv Hall) as Hp. cbn beta in Hp.
  pose proof (Forall_inv_tail Hall) as Hrest.
  rewrite count_events_cons.
  cbn [length seq Overrides.full_loop].
  rewrite list_lookup_middle by reflexivity.
  unfold Overrides.has_ring in Hp. unfold Overrides.ready_in.
  destruct (b !! fd p) as [msgBuf|]; [|discriminate].
  pose proof (visit_exact
                (buffer_hasData (remote sys pass (fd p) msgBuf)) p event_count)
    as Hvisit.
  pose proof (visit_keeps_entry
                (buffer_hasData (remote sys pass (fd p) msgBuf)) p event_count)
    as Hkeep.
  destruct (Overrides.visit _ p event_count) as [p' c1].
  cbn [fst snd] in Hvisit, Hkeep.
  replace (<[length pre := p']> (pre ++ p :: rest)) with ((pre ++ [p']) ++ rest).
  2:{ rewrite <- app_assoc. cbn. symmetry.
      rewrite insert_app_r_alt by lia. rewrite Nat.sub_diag. reflexivity. }
  replace (S (length pre)) with (length (pre ++ [p']))
    by (rewrite length_app; cbn; lia).
  destruct (IH (pre ++ [p']) c1 Hrest) as (rest' & Hloop & Hmap).
  exists (p' :: rest'). rewrite Hloop, <- app_assoc. cbn [app map].
  rewrite Hkeep, Hmap. split; [|reflexivity].
  f_equal. rewrite Hvisit. lia.
Qed.

Lemma count_events_nonneg sys (b : gmap Z RDMAMessageBuffer) pass fds :
  0 <= Overrides.count_events sys b pass fds.
Proof.
  induction fds as [|p fds IH]; [cbn; lia|]. rewrite count_events_cons.
  destruct (Overrides.ready_in sys b pass p), (Overrides.requests_out p); lia.
Qed.

(** What a pass counts, and whether every descriptor has a ring, depends on
    the descriptors and the requested events only. *)
Lemma same_requests sys (b : gmap Z RDMAMessageBuffer) pass
    (fds fds' : list pollfd) :
  map (set_revents 0) fds' = map (set_revents 0) fds ->
  Overrides.count_events sys b pass fds' = Overrides.count_events sys b pass fds /\
  (Forall (fun p => Overrides.has_ring b p = true) fds ->
   Forall (fun p => Overrides.has_ring b p = true) fds') /\
  length fds' = length fds.
Proof.
  revert fds. induction fds' as [|p' fds' IH]; intros [|p fds] Heq;
    try discriminate; [repeat split; auto|].
  cbn [map] in Heq. injection Heq as Hfd Hev Hrest.
  destruct (IH fds Hrest) as (Hc & Hr & Hl).
  split; [|split].
  - rewrite !count_events_cons, Hc.
    unfold Overrides.ready_in, Overrides.requests_out. rewrite Hfd, Hev.
    reflexivity.
  - intros Hall. pose proof (Forall_inv Hall) as H1. cbn beta in H1.
    constructor; [|apply Hr; exact (Forall_inv_tail Hall)].
    unfold Overrides.has_ring in *. rewrite Hfd. exact H1.
  - cbn. rewrite Hl. reflexivity.
Qed.

Lemma poll_all_rings fuel sys st fds timeout :
  fds <> [] ->
  Forall (fun p => Overrides.has_ring (Overrides.bridge st) p = true) fds ->
  Overrides.poll fuel sys st fds timeout =
    match Overrides.rdma_loop fuel sys (Overrides.bridge st) timeout 0
            (seq 0 (length fds)) fds 0 with
    | Some (fds', event_count) => Some (event_count, map (set_revents 0) fds')
    | None => None
    end.
Proof.
  intros Hne Hall. unfold Overrides.poll.
  destruct fds as [|p0 fds0] eqn:Hfds; [contradiction|].
  rewrite <- Hfds in *.
  assert (Hlen : (length fds =? 0)%nat = false) by (rewrite Hfds; reflexivity).
  rewrite Hlen, (classify_all_rings _ 0 fds Hall).
  rewrite length_seq, Hlen. cbn [length Nat.eqb].
  destruct (Overrides.rdma_loop _ _ _ _ _ _ _ _) as [[fds1 c1]|]; reflexivity.
Qed.

(** X14.  When every descriptor of the array has a ring, the count returned
    by [poll] is the number of events, not of descriptors: one for each
    entry asking for POLLIN whose ring holds a message, plus one for each
    entry asking for POLLOUT.  If that number is positive after the first
    pass, [poll] returns it at once (with every [revents] cleared). *)
Theorem poll_counts_events fuel sys st fds timeout :
  Forall (fun p => Overrides.has_ring (Overrides.bridge st) p = true) fds ->
  0 < Overrides.count_events sys (Overrides.bridge st) 0 fds ->
  Overrides.poll (S fuel) sys st fds timeout
    = Some (Overrides.count_events sys (Overrides.bridge st) 0 fds,
            map (set_revents 0) fds).
Proof.
  intros Hall Hpos.
  assert (Hne : fds <> []) by (intros ->; cbn in Hpos; lia).
  rewrite (poll_all_rings _ _ _ _ _ Hne Hall). cbn [Overrides.rdma_loop].
  destruct (full_loop_exact sys (Overrides.bridge st) 0 fds [] 0 Hall)
    as (fds1 & Hloop & Hmap).
  cbn [length app] in Hloop. rewrite Hloop, Z.add_0_l.
  destruct (Z.ltb_spec 0 (Overrides.count_events sys (Overrides.bridge st) 0 fds));
    [|lia].
  rewrite Hmap. reflexivity.
Qed.

(** X15.  [poll] on descriptors with rings does not wait for its timeout:
    when the first pass finds no event and the time elapsed is not above
    [timeout], it returns 0 at once. *)
Theorem poll_does_not_wait fuel sys st fds timeout :
  fds <> [] ->
  Forall (fun p => Overrides.has_ring (Overrides.bridge st) p = true) fds ->
  Overrides.count_events sys (Overrides.bridge st) 0 fds = 0 ->
  elapsed_ns sys 0 <= timeout * 1000000 ->
  Overrides.poll (S fuel) sys st fds timeout
    = Some (0, map (set_revents 0) fds).
Proof.
  intros Hne Hall Hzero Hearly.
  rewrite (poll_all_rings _ _ _ _ _ Hne Hall). cbn [Overrides.rdma_loop].
  destruct (full_loop_exact sys (Overrides.bridge st) 0 fds [] 0 Hall)
    as (fds1 & Hloop & Hmap).
  cbn [length app] in Hloop. rewrite Hloop, Z.add_0_l, Hzero. cbn [Z.ltb Z.compare].
  destruct (Z.ltb_spec (timeout * 1000000) (elapsed_ns sys 0)); [lia|].
  rewrite Hmap. reflexivity.
Qed.

Lemma rdma_loop_spins fuel sys (b : gmap Z RDMAMessageBuffer) timeout
    (fds0 : list pollfd) :
  Forall (fun p => Overrides.has_ring b p = true) fds0 ->
  (forall pass, Overrides.count_events sys b pass fds0 = 0) ->
  (forall pass, timeout * 1000000 < elapsed_ns sys pass) ->
  forall pass fds,
    map (set_revents 0) fds = map (set_revents 0) fds0 ->
    Overrides.rdma_loop fuel sys b timeout pass (seq 0 (length fds)) fds 0
      = None.
Proof.
  intros Hall Hquiet Hlate.
  induction fuel as [|fuel IH]; intros pass fds Hsame; [reflexivity|].
  destruct (same_requests sys b pass fds0 fds Hsame) as (Hc & Hr & Hl).
  cbn [Overrides.rdma_loop].
  destruct (full_loop_exact sys b pass fds [] 0 (Hr Hall)) as (fds1 & Hloop & Hmap).
  cbn [length app] in Hloop. rewrite Hloop, Z.add_0_l, Hc, Hquiet.
  cbn [Z.ltb Z.compare].
  destruct (Z.ltb_spec (timeout * 1000000) (elapsed_ns sys pass)) as [_|Hno];
    [|specialize (Hlate pass); lia].
  assert (Hlen1 : length fds1 = length fds).
  { rewrite <- (length_map (set_revents 0) fds1), Hmap, length_map. reflexivity. }
  rewrite <- Hlen1. apply IH. rewrite Hmap. exact Hsame.
Qed.

(** X16.  When the time elapsed is above [timeout] at every pass (a
    negative timeout, or timeout 0 once the clock has moved) and no pass
    ever finds an event, [poll] on descriptors with rings never returns. *)
Theorem poll_never_returns_without_event fuel sys st fds timeout :
  fds <> [] ->
  Forall (fun p => Overrides.has_ring (Overrides.bridge st) p = true) fds ->
  (forall pass, Overrides.count_events sys (Overrides.bridge st) pass fds = 0) ->
  (forall pass, timeout * 1000000 < elapsed_ns sys pass) ->
  Overrides.poll fuel sys st fds timeout = None.
Proof.
  intros Hne Hall Hquiet Hlate.
  rewrite (poll_all_rings _ _ _ _ _ Hne Hall).
  rewrite (rdma_loop_spins fuel sys (Overrides.bridge st) timeout fds
             Hall Hquiet Hlate 0 fds eq_refl).
  reflexivity.
Qed.

Lemma store_then_clear (stored : nat -> Z) (fds : list pollfd) :
  map (set_revents 0) (Overrides.store_revents stored fds)
    = map (set_revents 0) fds.
Proof.
  unfold Overrides.store_revents. revert stored.
  induction fds as [|p fds IH]; intros stored; [reflexivity|].
  rewrite imap_cons. cbn [map]. f_equal.
  exact (IH (fun i => stored (S i))).
Qed.

Lemma classify_no_rings (b : gmap Z RDMAMessageBuffer) (index : nat)
    (fds : list pollfd) :
  Forall (fun p => Overrides.has_ring b p = false) fds ->
  fst (Overrides.classify b index fds) = [].
Proof.
  revert index. induction fds as [|p fds IH]; intros index Hall; [reflexivity|].
  pose proof (Forall_inv Hall) as Hp. cbn beta in Hp.
  specialize (IH (S index) (Forall_inv_tail Hall)).
  cbn [Overrides.classify].
  destruct (Overrides.classify b (S index) fds) as [rdma_fds normal_fds].
  cbn [fst] in IH. subst rdma_fds.
  unfold Overrides.has_ring in Hp. destruct (b !! fd p); [discriminate|reflexivity].
Qed.

(** X17.  When no descriptor of the array has a ring, [poll] returns what
    the real [poll] returns, but hands the array back with every [revents]
    cleared, descriptors and events as the caller passed them (and 0 for an
    empty array, without calling the real [poll]). *)
Theorem poll_plain_descriptors fuel sys st fds timeout :
  Forall (fun p => Overrides.has_ring (Overrides.bridge st) p = false) fds ->
  Overrides.poll fuel sys st fds timeout
    = Some (if (length fds =? 0)%nat then 0
            else fst (real_poll sys fds timeout),
            if (length fds =? 0)%nat then fds
            else map (set_revents 0) fds).
Proof.
  intros Hall. unfold Overrides.poll.
  destruct (length fds =? 0)%nat; [reflexivity|].
  pose proof (classify_no_rings _ 0 fds Hall) as Hnil.
  destruct (Overrides.classify (Overrides.bridge st) 0 fds) as [rdma_fds normal_fds].
  cbn [fst] in Hnil. subst rdma_fds. cbn [length Nat.eqb].
  destruct (real_poll sys fds timeout) as [c stored]. cbn [fst].
  rewrite store_then_clear. reflexivity.
Qed.

(** X17 for descriptor 3, which has no ring. *)
Lemma poll_plain_descriptors_witness :
  Overrides.poll 1 (os loopback None) one_ring [mkPollfd 3 POLLIN 0] 100
    = Some (1, [mkPollfd 3 POLLIN 0]).
Proof.
  apply (poll_plain_descriptors 1 (os loopback None) one_ring
           [mkPollfd 3 POLLIN 0] 100).
  constructor; [vm_compute; reflexivity | constructor].
Defined.

(** X9 for descriptor 3, which has no ring. *)
Lemma select_real_without_ring_witness :
  Overrides.select 1 (os loopback None) forwarded one_ring 8
      (mkSets (Some {[3]}) None None) None
    = Some (1, mkSets (Some {[3]}) None None).
Proof.
  apply (select_real_without_ring 1 (os loopback None) forwarded one_ring 8
           (mkSets (Some {[3]}) None None) None); [lia|].
  intros sock _ Hin.
  unfold Overrides.is_in_any_set, Overrides.fd_is_set in Hin. cbn in Hin.
  rewrite !orb_false_r in Hin. apply bool_decide_eq_true in Hin.
  apply elem_of_singleton in Hin. subst sock. reflexivity.
Defined.

(** X11 for the read set {0, 3} and the write set {4}. *)
Lemma select_to_poll_skips_descriptor_zero_witness :
  let '(pollfds, nfds') :=
    Overrides.select_to_poll 6 (mkSets (Some {[0; 3]}) (Some {[4]}) None) in
  length pollfds = Z.to_nat 6 /\
  map fd (take nfds' pollfds)
    = List.filter
        (fun s => Overrides.is_in_any_set s
                    (mkSets (Some {[0; 3]}) (Some {[4]}) None)
                  && negb (s =? 0))
        (Overrides.descriptors_below 6) /\
  Forall (fun p => fd p <> 0) (take nfds' pollfds).
Proof.
  apply (select_to_poll_skips_descriptor_zero 6
           (mkSets (Some {[0; 3]}) (Some {[4]}) None)).
  lia.
Defined.

(** X12 for the read set {3, 5} and the write set {3, 4}. *)
Lemma select_to_poll_entries_witness :
  Overrides.select_to_poll 6 (mkSets (Some {[3; 5]}) (Some {[3; 4]}) None)
    = ([mkPollfd 3 5 0; mkPollfd 4 4 0; mkPollfd 5 1 0;
        mkPollfd 0 0 0; mkPollfd 0 0 0; mkPollfd 0 0 0], 3%nat).
Proof.
  etransitivity.
  - apply (select_to_poll_entries 6
             (mkSets (Some {[3; 5]}) (Some {[3; 4]}) None)).
    + lia.
    + vm_compute. reflexivity.
  - vm_compute. reflexivity.
Defined.

(** X14 for one descriptor asking for both events on an empty ring. *)
Lemma poll_counts_events_witness :
  Overrides.poll 1 (os loopback None) one_ring
      [mkPollfd 7 (Z.lor POLLIN POLLOUT) 0] (-1)
    = Some (1, [mkPollfd 7 (Z.lor POLLIN POLLOUT) 0]).
Proof.
  apply (poll_counts_events 0 (os loopback None) one_ring
           [mkPollfd 7 (Z.lor POLLIN POLLOUT) 0] (-1)).
  - constructor; [vm_compute; reflexivity | constructor].
  - vm_compute. reflexivity.
Defined.

(** X15 for a timeout of 100 ms on an empty ring. *)
Lemma poll_does_not_wait_witness :
  Overrides.poll 1 (os loopback None) one_ring [mkPollfd 7 POLLIN 0] 100
    = Some (0, [mkPollfd 7 POLLIN 0]).
Proof.
  apply (poll_does_not_wait 0 (os loopback None) one_ring
           [mkPollfd 7 POLLIN 0] 100).
  - discriminate.
  - constructor; [vm_compute; reflexivity | constructor].
  - vm_compute. reflexivity.
  - cbn. lia.
Defined.

(** X16 for an infinite timeout on an empty ring: five passes and no end. *)
Lemma poll_never_returns_without_event_witness :
  Overrides.poll 5 (os loopback None) one_ring [mkPollfd 7 POLLIN 0] (-1)
    = None.
Proof.
  apply (poll_never_returns_without_event 5 (os loopback None) one_ring
           [mkPollfd 7 POLLIN 0] (-1)).
  - discriminate.
  - constructor; [vm_compute; reflexivity | constructor].
  - intros pass. vm_compute. reflexivity.
  - intros pass. cbn. lia.
Defined.
